(** * MosaicConverter: palette cache, colour matcher and tile loader

    A shallow embedding of [main.py].  The functions of the script keep
    their names.  What the script obtains from the operating system and
    from its libraries is carried by the data it is run on:

    - a directory entry records what [entry.is_file()], [get_image_hash]
      (hashlib's md5 over the file) and [Image.open] (PIL) answer for it;
    - [scandir] yields the entries of [mosaics/] in the order of the list;
    - a binary64 value is modelled by the rational it denotes ([Qc]), a
      mean by the exact quotient; the text Python prints for such a value,
      [numpy.fromstring] and PIL's [resize] are parameters of the
      development ([format_float], [fromstring], [resize]);
    - an exception is [None]; the [try]/[except] blocks of the script are
      the matches on it. *)

From Stdlib Require Import ZArith QArith Qcanon String Ascii List Bool Lia.
From stdpp Require Import base option list numbers strings gmap.

Local Open Scope Z_scope.

(** ** Text files *)

Definition LF : ascii := Ascii.ascii_of_nat 10.
Definition CR : ascii := Ascii.ascii_of_nat 13.

(** [open(path, "r")] reads with universal newlines: a carriage return,
    alone or before a line feed, reaches the program as one line feed. *)
Fixpoint universal_newlines (s : string) : string :=
  match s with
  | EmptyString => EmptyString
  | String c s' =>
      if Ascii.eqb c CR then
        match s' with
        | String c' _ =>
            if Ascii.eqb c' LF then universal_newlines s'
            else String LF (universal_newlines s')
        | EmptyString => String LF EmptyString
        end
      else String c (universal_newlines s')
  end.

(** Iterating over a text file: every line keeps its terminator, the last
    one may lack it.  [cur] is the line being read. *)
Fixpoint file_lines_from (cur : string) (s : string) : list string :=
  match s with
  | EmptyString => if String.eqb cur "" then [] else [cur]
  | String c s' =>
      if Ascii.eqb c LF then (cur +:+ String LF "") :: file_lines_from "" s'
      else file_lines_from (cur +:+ String c "") s'
  end.

Definition file_lines (content : string) : list string :=
  file_lines_from "" (universal_newlines content).

(** [line.rstrip('\n')] *)
Fixpoint rstrip_newline (s : string) : string :=
  match s with
  | EmptyString => EmptyString
  | String c s' =>
      let r := rstrip_newline s' in
      if Ascii.eqb c LF && String.eqb r "" then EmptyString else String c r
  end.

(** [for element in cache: cache_file.write(f"{element}\n")] *)
Fixpoint write_lines (cache : list string) : string :=
  match cache with
  | [] => EmptyString
  | element :: rest => element +:+ String LF (write_lines rest)
  end.

Fixpoint free_of (a : ascii) (s : string) : bool :=
  match s with
  | EmptyString => true
  | String c s' => negb (Ascii.eqb c a) && free_of a s'
  end.

(** A line that holds neither a line feed nor a carriage return. *)
Definition plain_line (s : string) : bool := free_of LF s && free_of CR s.

Definition is_hex_digit (c : ascii) : bool :=
  let n := Ascii.nat_of_ascii c in
  ((48 <=? n)%nat && (n <=? 57)%nat) || ((97 <=? n)%nat && (n <=? 102)%nat).

(** The text of a [hexdigest()]: hexadecimal digits, nothing else. *)
Fixpoint hex_text (s : string) : bool :=
  match s with
  | EmptyString => true
  | String c s' => is_hex_digit c && hex_text s'
  end.

(** A loaded record made of pairs, whose second lines are not the text
    of a digest. *)
Fixpoint record_ok (lines : list string) : bool :=
  match lines with
  | [] => true
  | _ :: color :: rest => negb (hex_text color) && record_ok rest
  | [_] => false
  end.

(** ** Images and the tile directory *)

Definition pixel : Type := Z * Z * Z.

(** What PIL hands back for an opened file. [im_getdata] is [None] when
    reading the raster raises. *)
Record PILImage : Type := {
  im_size : Z * Z;
  im_mode : string;
  im_getdata : option (list pixel)
}.

#[global] Instance PILImage_eq_dec : EqDecision PILImage.
Proof. solve_decision. Defined.

Record DirEntry : Type := {
  entry_name : string;
  is_file : bool;
  (** the hexdigest of the file; [None] when reading it raises *)
  file_md5 : option string;
  (** [Image.open(entry.path, 'r')]; [None] when it raises *)
  file_image : option PILImage;
  (** whether [remove(entry.path)] succeeds *)
  removable : bool
}.

(** The part of the file system the script touches. *)
Record World : Type := {
  cache_file : option string;
  mosaics : list DirEntry
}.

(** [numpy.array(data).reshape((width, height, 3))]: [width] rows of
    [height] pixels, taken from the flat data in order. *)
Fixpoint rows_of {A} (n : nat) (len : nat) (l : list A) : list (list A) :=
  match n with
  | O => []
  | S n' => take len l :: rows_of n' len (drop len l)
  end.

Definition reshape (width height : Z) (data : list pixel)
  : option (list (list pixel)) :=
  if (0 <=? width) && (0 <=? height)
     && (Z.of_nat (length data) =? width * height)
  then Some (rows_of (Z.to_nat width) (Z.to_nat height) data)
  else None.

(** ** Decimal text of a number

    A printer and a reader of plain decimal numerals, to run the script on
    concrete inputs.  On a value with a short terminating expansion
    ([0.0], [0.5], [127.5], [255.0]) the printer writes what Python does;
    a longer expansion is cut after seventeen fractional digits.  The
    reader takes the numerals separated by blanks and stops at the first
    word that is not one. *)

Definition digit_char (d : Z) : ascii :=
  Ascii.ascii_of_nat (48 + Z.to_nat (d mod 10)).

Fixpoint natural_digits (fuel : nat) (n : Z) (acc : string) : string :=
  match fuel with
  | O => acc
  | S fuel' =>
      let acc := String (digit_char (n mod 10)) acc in
      if n / 10 =? 0 then acc else natural_digits fuel' (n / 10) acc
  end.

Definition natural_text (n : Z) : string :=
  natural_digits (S (Z.to_nat (Z.log2 n))) n "".

Fixpoint fraction_digits (fuel : nat) (r den : Z) : string :=
  match fuel with
  | O => ""
  | S fuel' =>
      if r =? 0 then ""
      else String (digit_char (10 * r / den))
             (fraction_digits fuel' ((10 * r) mod den) den)
  end.

Definition decimal_text (x : Qc) : string :=
  let n := Qnum (this x) in
  let d := Zpos (Qden (this x)) in
  let fraction := fraction_digits 17 (Z.abs n mod d) d in
  (if n <? 0 then "-" else "") +:+ natural_text (Z.abs n / d) +:+ "."
  +:+ (if String.eqb fraction "" then "0" else fraction).

Definition digit_value (c : ascii) : option Z :=
  let n := Z.of_nat (Ascii.nat_of_ascii c) in
  if (48 <=? n) && (n <=? 57) then Some (n - 48) else None.

(** The digits at the head of [s]: their value on top of [acc], how many
    there are, and what follows them. *)
Fixpoint read_digits (s : string) (acc : Z) (count : nat) : Z * nat * string :=
  match s with
  | EmptyString => (acc, count, EmptyString)
  | String c s' =>
      match digit_value c with
      | Some d => read_digits s' (10 * acc + d) (S count)
      | None => (acc, count, s)
      end
  end.

Definition read_unsigned (s : string) : option Qc :=
  let '(whole, n, rest) := read_digits s 0 0 in
  match rest with
  | EmptyString =>
      if (n =? 0)%nat then None else Some (Qc_of_Z whole)
  | String c rest' =>
      if Ascii.eqb c "."%char then
        let '(all, m, rest'') := read_digits rest' whole 0 in
        match rest'' with
        | EmptyString =>
            if (n + m =? 0)%nat then None
            else Some (Q2Qc (all # Z.to_pos (10 ^ Z.of_nat m)))
        | String _ _ => None
        end
      else None
  end.

Definition read_number (word : string) : option Qc :=
  match word with
  | String c s' =>
      if Ascii.eqb c "-"%char then Qcopp <$> read_unsigned s'
      else if Ascii.eqb c "+"%char then read_unsigned s'
      else read_unsigned word
  | EmptyString => None
  end.

(** The words of [s] between blanks; [cur] is the word being read. *)
Fixpoint words_from (cur : string) (s : string) : list string :=
  match s with
  | EmptyString => if String.eqb cur "" then [] else [cur]
  | String c s' =>
      if Ascii.eqb c " "%char then
        (if String.eqb cur "" then [] else [cur]) ++ words_from "" s'
      else words_from (cur +:+ String c "") s'
  end.

Fixpoint numbers_until_error (words : list string) : list Qc :=
  match words with
  | [] => []
  | word :: rest =>
      match read_number word with
      | Some x => x :: numbers_until_error rest
      | None => []
      end
  end.

Definition decimal_values (line : string) : list Qc :=
  numbers_until_error (words_from "" line).

(** No resampling: for runs that request no resize. *)
Definition same_size (image : PILImage) (size : Z * Z) : PILImage := image.

(** ** Sample tiles and directories *)

(** A 48x48 RGB image of one colour. *)
Definition solid (color : pixel) : PILImage :=
  {| im_size := (48, 48); im_mode := "RGB";
     im_getdata := Some (repeat color 2304) |}.

Definition black_tile : PILImage := solid (0, 0, 0).
Definition white_tile : PILImage := solid (255, 255, 255).



(** An RGB image that is not 48x48. *)
Definition thumbnail : PILImage :=
  {| im_size := (2, 1); im_mode := "RGB";
     im_getdata := Some [(10, 10, 10); (250, 250, 250)] |}.

Definition tile_file (name digest : string) (image : PILImage) : DirEntry :=
  {| entry_name := name; is_file := true; file_md5 := Some digest;
     file_image := Some image; removable := true |}.

Definition black_md5 : string := "c4ca4238a0b923820dcc509a6f75849b".
Definition white_md5 : string := "c81e728d9d4c2f636f067f89cc14862c".
Definition small_md5 : string := "a87ff679a2f3e71d9181a67b7542122c".
Definition absent_md5 : string := "e4da3b7fbbce2345d7772b0674a318d5".

Definition black_png : DirEntry := tile_file "black.png" black_md5 black_tile.
Definition black_copy_png : DirEntry :=
  tile_file "black (copy).png" black_md5 black_tile.
Definition white_png : DirEntry := tile_file "white.png" white_md5 white_tile.
Definition small_png : DirEntry := tile_file "small.png" small_md5 thumbnail.

(** A run that starts without [./cache]. *)
Definition fresh (dir : list DirEntry) : World :=
  {| cache_file := None; mosaics := dir |}.

(** A run that finds the given lines in [./cache]. *)
Definition recorded (lines : list string) (dir : list DirEntry) : World :=
  {| cache_file := Some (write_lines lines); mosaics := dir |}.

(** Fifty tiles with the fingerprints ["100"] to ["149"]. *)
Definition fifty_tiles : list DirEntry :=
  (fun i : nat =>
     tile_file (natural_text (Z.of_nat i)) (natural_text (100 + Z.of_nat i))
               black_tile) <$> seq 0 50.

Section Script.

(** [image.resize(target_size)] of PIL. *)
Variable resize : PILImage -> Z * Z -> PILImage.

(** The text of a binary64 in an f-string. *)
Variable format_float : Qc -> string.

(** [numpy.fromstring(line, dtype=float, sep=' ')] *)
Variable fromstring : string -> list Qc.

Definition get_image (opened : option PILImage) (ignore_size : bool)
    (target_size : option (Z * Z)) : option (list (list pixel)) :=
  match opened with
  | None => None
  | Some image =>
      let image :=
        match target_size with
        | Some size => resize image size
        | None => image
        end in
      let '(width, height) := im_size image in
      if negb ignore_size && (negb (width =? 48) || negb (height =? 48))
      then None
      else if negb (String.eqb (im_mode image) "RGB") then None
      else match im_getdata image with
           | None => None
           | Some data => reshape width height data
           end
  end.

Definition get_image_hash (entry : DirEntry) : option string :=
  file_md5 entry.

(** *** The palette *)

(** [numpy.average] of one channel. *)
Definition average (values : list Z) : Qc :=
  Qcdiv (Qc_of_Z (foldr Z.add 0 values))
        (Qc_of_Z (Z.of_nat (length values))).

(** [numpy.average(pixel_values.transpose(2, 0, 1).reshape(3, -1), axis=1)] *)
Definition channel_averages (pixel_values : list (list pixel)) : Qc * Qc * Qc :=
  let flat := concat pixel_values in
  (average (map (fun p => p.1.1) flat),
   average (map (fun p => p.1.2) flat),
   average (map (fun p => p.2) flat)).

(** [f"{pixel_values[0]} {pixel_values[1]} {pixel_values[2]}"] *)
Definition format_color (c : Qc * Qc * Qc) : string :=
  format_float c.1.1 +:+ " " +:+ format_float c.1.2 +:+ " "
  +:+ format_float c.2.

(** Storing a binary64 in an array of [dtype=int] drops its fractional
    part (rounding toward zero). *)
Definition float_to_int (x : Qc) : Z :=
  Z.quot (Qnum (this x)) (Zpos (Qden (this x))).

(** [parsed_mosaic_palette[1][i] = numpy.fromstring(...)]: the row has
    three cells; one value is broadcast to them, three values fill them,
    any other count raises. *)
Definition assign_row (values : list Qc) : option (Z * Z * Z) :=
  match float_to_int <$> values with
  | [a] => Some (a, a, a)
  | [a; b; c] => Some (a, b, c)
  | _ => None
  end.

(** The parsed palette: the array of fingerprints and the array of
    integer colours, as the two-element list of the script. *)
Definition Palette : Type := list string * list (Z * Z * Z).

(** The body of the loop of [parse_mosaic_palette] at index [i]. *)
Definition parse_entry (mosaic_palette : list string) (i : nat)
  : option (string * (Z * Z * Z)) :=
  fingerprint ← mosaic_palette !! (i * 2)%nat;
  line ← mosaic_palette !! (i * 2 + 1)%nat;
  row ← assign_row (fromstring line);
  Some (fingerprint, row).

Definition parse_mosaic_palette (mosaic_palette : list string)
  : option Palette :=
  let total_elements := (length mosaic_palette / 2)%nat in
  entries ← mapM (parse_entry mosaic_palette) (seq 0 total_elements);
  Some (entries.*1, entries.*2).

(** [saved_values.index(image_hash)] *)
Definition index (x : string) (l : list string) : option nat :=
  fst <$> list_find (fun y => y = x) l.

(** The state of the loop over [scandir("mosaics")]: the list [cache]
    under construction, the entries the loop has left in the directory,
    and the entries it has handed to [get_image]. *)
Record Scan : Type := {
  cache : list string;
  kept : list DirEntry;
  decoded : list DirEntry
}.

Definition scan_entry (delete_flag : bool) (saved_values : list string)
    (st : Scan) (entry : DirEntry) : Scan :=
  let stay := {| cache := cache st; kept := kept st ++ [entry];
                 decoded := decoded st |} in
  if negb (is_file entry) || String.eqb (entry_name entry) ".gitkeep"
  then stay
  else
    match get_image_hash entry with
    | None => stay
    | Some image_hash =>
        if negb (bool_decide (image_hash ∈ saved_values)) then
          match get_image (file_image entry) false None with
          | None =>
              if delete_flag && removable entry then
                {| cache := cache st; kept := kept st;
                   decoded := decoded st ++ [entry] |}
              else
                {| cache := cache st; kept := kept st ++ [entry];
                   decoded := decoded st ++ [entry] |}
          | Some pixel_values =>
              let pixel_values := channel_averages pixel_values in
              {| cache := cache st ++ [image_hash; format_color pixel_values];
                 kept := kept st ++ [entry];
                 decoded := decoded st ++ [entry] |}
          end
        else
          match i ← index image_hash saved_values;
                saved_values !! (i + 1)%nat with
          | None =>
              {| cache := cache st ++ [image_hash];
                 kept := kept st ++ [entry]; decoded := decoded st |}
          | Some color =>
              {| cache := cache st ++ [image_hash; color];
                 kept := kept st ++ [entry]; decoded := decoded st |}
          end
    end.

(** What one call of [get_mosaic_palette] leaves behind and returns. *)
Record Reconciled : Type := {
  world_after : World;
  (** whether [./cache] was opened for writing *)
  cache_written : bool;
  tiles_decoded : list DirEntry;
  cache_built : list string;
  palette : option Palette
}.

Definition read_cache (w : World) : list string :=
  match cache_file w with
  | Some content => rstrip_newline <$> file_lines content
  | None => []
  end.

Definition get_mosaic_palette (delete_flag : bool) (w : World) : Reconciled :=
  let saved_values := read_cache w in
  let st := foldl (scan_entry delete_flag saved_values)
              {| cache := []; kept := []; decoded := [] |} (mosaics w) in
  {| world_after :=
       {| cache_file :=
            if bool_decide (saved_values ≠ cache st)
            then Some (write_lines (cache st))
            else cache_file w;
          mosaics := kept st |};
     cache_written := bool_decide (saved_values ≠ cache st);
     tiles_decoded := decoded st;
     cache_built := cache st;
     palette := parse_mosaic_palette (cache st) |}.

(** *** The matcher *)

(** [numpy.average(numpy.abs(color - pixel))] for one row of the palette. *)
Definition distance (p : pixel) (color : Z * Z * Z) : Qc :=
  average [Z.abs (color.1.1 - p.1.1); Z.abs (color.1.2 - p.1.2);
           Z.abs (color.2 - p.2)].

(** [argmin] scans from the left and moves only to a strictly smaller
    value; [best] is the index of [least], [i] the index of the head. *)
Fixpoint argmin_from (best : nat) (least : Qc) (i : nat) (l : list Qc) : nat :=
  match l with
  | [] => best
  | d :: l' =>
      if decide (d < least)%Qc then argmin_from i d (S i) l'
      else argmin_from best least (S i) l'
  end.

(** [a.argmin()]; it raises on an empty array. *)
Definition argmin (l : list Qc) : option nat :=
  match l with
  | [] => None
  | d :: l' => Some (argmin_from 0 d 1 l')
  end.

Definition nearest (mosaic_palette : Palette) (p : pixel) : option string :=
  pixel_md5_index ← argmin (distance p <$> mosaic_palette.2);
  mosaic_palette.1 !! pixel_md5_index.

Definition get_image_mask (pixel_values : list (list pixel))
    (mosaic_palette : Palette) : option (list (list string)) :=
  mapM (mapM (nearest mosaic_palette)) pixel_values.

(** *** The loader *)

(** One turn of the loop of [load_used_images]; [None] is the early
    [return None] of the handler. *)
Definition load_entry (image_mask : list (list string))
    (acc : option (gmap string PILImage)) (entry : DirEntry)
  : option (gmap string PILImage) :=
  images_data ← acc;
  if negb (is_file entry) then Some images_data
  else
    image_hash ← get_image_hash entry;
    if bool_decide (image_hash ∈ concat image_mask) then
      image ← file_image entry;
      Some (<[image_hash := image]> images_data)
    else Some images_data.

Definition load_used_images (image_mask : list (list string))
    (dir : list DirEntry) : option (gmap string PILImage) :=
  foldl (load_entry image_mask) (Some ∅) dir.

(** *** The assembler *)

(** The output image, as the tile pasted at each cell; pasting the
    [None] that [loaded_data.get] returns for an absent key raises. *)
Definition generate_image (image_mask : list (list string))
    (loaded_data : gmap string PILImage) : option (list (list PILImage)) :=
  mapM (mapM (fun fingerprint => loaded_data !! fingerprint)) image_mask.

(** *** The script body *)

Inductive Call : Type :=
  | call_get_image
  | call_get_mosaic_palette
  | call_get_image_mask
  | call_load_used_images
  | call_generate_image.

Inductive Exit : Type :=
  | quit (status : Z)
  | uncaught.

(** A run of the script: how it ended, the functions it called in order,
    the file system it left, and the image it showed or saved. *)
Record Run : Type := {
  run_exit : Exit;
  run_calls : list Call;
  run_world : World;
  run_image : option (list (list PILImage))
}.

Definition main (image : option PILImage) (resize_arg : option (Z * Z))
    (delete : bool) (w : World) : Run :=
  match get_image image true resize_arg with
  | None =>
      {| run_exit := quit 1; run_calls := [call_get_image];
         run_world := w; run_image := None |}
  | Some pixel_values =>
      let r := get_mosaic_palette delete w in
      let w' := world_after r in
      match palette r with
      | None =>
          {| run_exit := uncaught;
             run_calls := [call_get_image; call_get_mosaic_palette];
             run_world := w'; run_image := None |}
      | Some mosaic_palette =>
          if (length mosaic_palette.1 =? 0)%nat then
            {| run_exit := quit 1;
               run_calls := [call_get_image; call_get_mosaic_palette];
               run_world := w'; run_image := None |}
          else
            match get_image_mask pixel_values mosaic_palette with
            | None =>
                {| run_exit := uncaught;
                   run_calls := [call_get_image; call_get_mosaic_palette;
                                 call_get_image_mask];
                   run_world := w'; run_image := None |}
            | Some image_mask =>
                match load_used_images image_mask (mosaics w') with
                | None =>
                    {| run_exit := quit 1;
                       run_calls := [call_get_image; call_get_mosaic_palette;
                                     call_get_image_mask;
                                     call_load_used_images];
                       run_world := w'; run_image := None |}
                | Some loaded_images =>
                    match generate_image image_mask loaded_images with
                    | None =>
                        {| run_exit := uncaught;
                           run_calls := [call_get_image;
                                         call_get_mosaic_palette;
                                         call_get_image_mask;
                                         call_load_used_images;
                                         call_generate_image];
                           run_world := w'; run_image := None |}
                    | Some new_image =>
                        {| run_exit := quit 0;
                           run_calls := [call_get_image;
                                         call_get_mosaic_palette;
                                         call_get_image_mask;
                                         call_load_used_images;
                                         call_generate_image];
                           run_world := w'; run_image := Some new_image |}
                    end
                end
            end
      end
  end.

(** ** Notions the statements use *)

Definition empty_scan : Scan := {| cache := []; kept := []; decoded := [] |}.

(** What one entry adds to [cache], whether it stays in the directory
    and whether it is decoded: the loop body run on the empty state. *)
Definition lines_of (saved_values : list string) (entry : DirEntry)
  : list string :=
  cache (scan_entry false saved_values empty_scan entry).

Definition stays (delete_flag : bool) (saved_values : list string)
    (entry : DirEntry) : list DirEntry :=
  kept (scan_entry delete_flag saved_values empty_scan entry).

Definition decodes (saved_values : list string) (entry : DirEntry)
  : list DirEntry :=
  decoded (scan_entry false saved_values empty_scan entry).

(** The same directory with other tiles in [mosaics/]. *)
Definition with_mosaics (w : World) (dir : list DirEntry) : World :=
  {| cache_file := cache_file w; mosaics := dir |}.

(** An entry the loop of [get_mosaic_palette] looks at. *)
Definition scanned (entry : DirEntry) : bool :=
  is_file entry && negb (String.eqb (entry_name entry) ".gitkeep").

(** The fingerprints of the files of [mosaics/], in directory order. *)
Definition fingerprints (dir : list DirEntry) : list string :=
  omap (fun entry => if scanned entry then get_image_hash entry else None) dir.

(** The fingerprints of the files [load_used_images] hashes. *)
Definition file_fingerprints (dir : list DirEntry) : list string :=
  omap (fun entry => if is_file entry then get_image_hash entry else None) dir.

(** An entry at which the loop of [load_used_images] returns [None]:
    a file that cannot be hashed, or a file the mask refers to that
    cannot be opened. *)
Definition load_fails (image_mask : list (list string)) (entry : DirEntry)
  : Prop :=
  is_file entry = true ∧
  (get_image_hash entry = None ∨
   ∃ image_hash, get_image_hash entry = Some image_hash ∧
                 image_hash ∈ concat image_mask ∧ file_image entry = None).

(** Every fingerprint of the directory is the text of a digest. *)
Definition digests_hex (dir : list DirEntry) : bool :=
  forallb (fun entry =>
    match get_image_hash entry with
    | Some h => hex_text h
    | None => true
    end) dir.

(** Files with the same fingerprint open as the same image. *)
Definition digest_fixes_image (dir : list DirEntry) : bool :=
  forallb (fun e1 =>
    forallb (fun e2 =>
      match get_image_hash e1 with
      | Some h =>
          negb (bool_decide (get_image_hash e2 = Some h))
          || bool_decide (file_image e1 = file_image e2)
      | None => true
      end) dir) dir.

(** The flat record that holds the given pairs. *)
Definition flat_record (pairs : list (string * string)) : list string :=
  pairs ≫= fun pair => [pair.1; pair.2].

(** ** Reading back what was written *)

Lemma append_cons x (a b : string) : String x a +:+ b = String x (a +:+ b).
Proof. reflexivity. Qed.

Lemma append_assoc (a b c : string) : (a +:+ b) +:+ c = a +:+ (b +:+ c).
Proof.
  induction a as [|x a IH]; [done|]. rewrite !append_cons. by f_equal.
Qed.

Lemma free_of_append a x y :
  free_of a (x +:+ y) = free_of a x && free_of a y.
Proof.
  induction x as [|c x IH]; [done|]. rewrite append_cons. simpl.
  rewrite IH. by rewrite andb_assoc.
Qed.

Lemma plain_line_append a b :
  plain_line (a +:+ b) = plain_line a && plain_line b.
Proof.
  unfold plain_line. rewrite !free_of_append.
  destruct (free_of LF a), (free_of LF b), (free_of CR a); done.
Qed.

Lemma hex_text_append a b : hex_text (a +:+ b) = hex_text a && hex_text b.
Proof.
  induction a as [|x a IH]; [done|]. rewrite append_cons. simpl.
  rewrite IH. by rewrite !andb_assoc.
Qed.

Lemma hex_text_plain s : hex_text s = true → plain_line s = true.
Proof.
  unfold plain_line. induction s as [|c s IH]; simpl; [done|].
  intros [Hc Hs]%andb_true_iff.
  apply andb_true_iff in IH as [-> ->]; [|done].
  rewrite !andb_true_r. apply andb_true_iff.
  split; apply negb_true_iff, Ascii.eqb_neq; intros ->; discriminate.
Qed.

Lemma rstrip_newline_plain s : free_of LF s = true → rstrip_newline s = s.
Proof.
  induction s as [|c s IH]; simpl; [done|].
  intros [Hlf Hs]%andb_true_iff.
  apply negb_true_iff in Hlf. rewrite Hlf, IH; done.
Qed.

Lemma rstrip_newline_terminated s :
  free_of LF s = true → rstrip_newline (s +:+ String LF "") = s.
Proof.
  induction s as [|c s IH]; [done|]. rewrite append_cons. simpl.
  intros [Hlf Hs]%andb_true_iff.
  apply negb_true_iff in Hlf. rewrite Hlf, IH; done.
Qed.

Lemma universal_newlines_id s :
  free_of CR s = true → universal_newlines s = s.
Proof.
  induction s as [|c s IH]; simpl; [done|].
  intros [Hcr Hs]%andb_true_iff.
  apply negb_true_iff in Hcr. rewrite Hcr, IH; done.
Qed.

Lemma universal_newlines_free s : free_of CR (universal_newlines s) = true.
Proof.
  induction s as [|c s IH]; simpl; [done|].
  destruct (Ascii.eqb c CR) eqn:Hc.
  - destruct s as [|c' s']; [done|].
    destruct (Ascii.eqb c' LF); [exact IH|]. simpl. exact IH.
  - simpl. by rewrite Hc.
Qed.

Lemma file_lines_from_plain s : ∀ cur,
  plain_line cur = true → free_of CR s = true →
  Forall (λ line, plain_line line = true)
         (rstrip_newline <$> file_lines_from cur s).
Proof.
  induction s as [|c s IH]; intros cur Hcur Hs; simpl.
  - destruct (String.eqb cur ""); [constructor|].
    apply andb_true_iff in Hcur as Hcur'. destruct Hcur' as [Hlf _].
    simpl. rewrite rstrip_newline_plain by done. by repeat constructor.
  - simpl in Hs. apply andb_true_iff in Hs as [Hc Hs].
    apply andb_true_iff in Hcur as Hcur'. destruct Hcur' as [Hlf Hcr].
    destruct (Ascii.eqb c LF) eqn:Hclf.
    + rewrite fmap_cons, rstrip_newline_terminated by done.
      constructor; [done|]. by apply IH.
    + apply IH; [|done]. rewrite plain_line_append, Hcur.
      unfold plain_line. simpl. by rewrite Hclf, Hc.
Qed.

Lemma file_lines_from_line line : ∀ cur rest,
  free_of LF line = true →
  file_lines_from cur (line +:+ String LF rest) =
  (cur +:+ line +:+ String LF "") :: file_lines_from "" rest.
Proof.
  induction line as [|c line IH]; intros cur rest Hline.
  - simpl. done.
  - rewrite append_cons. simpl in *.
    apply andb_true_iff in Hline as [Hc Hline].
    apply negb_true_iff in Hc. rewrite Hc, IH by done.
    by rewrite append_assoc.
Qed.

Lemma file_lines_write_lines l :
  Forall (λ line, plain_line line = true) l →
  rstrip_newline <$> file_lines (write_lines l) = l.
Proof.
  intros Hl. unfold file_lines.
  assert (Hcr : free_of CR (write_lines l) = true).
  { induction Hl as [|line l Hline _ IH]; [done|]. simpl.
    rewrite free_of_append. simpl. rewrite IH.
    apply andb_true_iff in Hline as [_ ->]. done. }
  rewrite universal_newlines_id by done. clear Hcr.
  induction Hl as [|line l Hline _ IH]; [done|]. simpl.
  apply andb_true_iff in Hline as [Hlf _].
  rewrite file_lines_from_line by done.
  rewrite fmap_cons, IH. f_equal.
  change ("" +:+ line +:+ String LF "") with (line +:+ String LF "").
  by apply rstrip_newline_terminated.
Qed.

(** ** The reconciliation loop, entry by entry *)

Lemma scan_entry_app delete_flag saved_values st entry :
  scan_entry delete_flag saved_values st entry =
  {| cache := cache st ++ lines_of saved_values entry;
     kept := kept st ++ stays delete_flag saved_values entry;
     decoded := decoded st ++ decodes saved_values entry |}.
Proof.
  unfold lines_of, stays, decodes, scan_entry.
  destruct st as [c k dc]; simpl.
  repeat (case_match; simpl; rewrite ?app_nil_r; try reflexivity).
Qed.

Lemma scan_foldl delete_flag saved_values dir st :
  foldl (scan_entry delete_flag saved_values) st dir =
  {| cache := cache st ++ (dir ≫= lines_of saved_values);
     kept := kept st ++ (dir ≫= stays delete_flag saved_values);
     decoded := decoded st ++ (dir ≫= decodes saved_values) |}.
Proof.
  revert st. induction dir as [|entry dir IH]; intros st; simpl.
  - destruct st; simpl. by rewrite !app_nil_r.
  - rewrite IH, scan_entry_app. simpl. by rewrite <- !app_assoc.
Qed.

Lemma cache_built_eq delete_flag w :
  cache_built (get_mosaic_palette delete_flag w) =
  mosaics w ≫= lines_of (read_cache w).
Proof. unfold get_mosaic_palette. simpl. by rewrite scan_foldl. Qed.

Lemma mosaics_after_eq delete_flag w :
  mosaics (world_after (get_mosaic_palette delete_flag w)) =
  mosaics w ≫= stays delete_flag (read_cache w).
Proof. unfold get_mosaic_palette. simpl. by rewrite scan_foldl. Qed.

Lemma tiles_decoded_eq delete_flag w :
  tiles_decoded (get_mosaic_palette delete_flag w) =
  mosaics w ≫= decodes (read_cache w).
Proof. unfold get_mosaic_palette. simpl. by rewrite scan_foldl. Qed.

Lemma palette_eq delete_flag w :
  palette (get_mosaic_palette delete_flag w) =
  parse_mosaic_palette (cache_built (get_mosaic_palette delete_flag w)).
Proof. reflexivity. Qed.

Lemma stays_without_delete saved_values entry :
  stays false saved_values entry = [entry].
Proof.
  unfold stays, scan_entry. simpl.
  repeat (case_match; simpl; try reflexivity).
Qed.

Lemma no_delete_without_flag w :
  mosaics (world_after (get_mosaic_palette false w)) = mosaics w.
Proof.
  rewrite mosaics_after_eq.
  induction (mosaics w) as [|entry dir IH]; [reflexivity|].
  rewrite bind_cons, IH, stays_without_delete. reflexivity.
Qed.

Lemma rejected_tile delete_flag saved_values entry image_hash :
  is_file entry = true → entry_name entry ≠ ".gitkeep" →
  get_image_hash entry = Some image_hash →
  image_hash ∉ saved_values →
  get_image (file_image entry) false None = None →
  lines_of saved_values entry = [] ∧
  decodes saved_values entry = [entry] ∧
  stays delete_flag saved_values entry =
    if delete_flag && removable entry then [] else [entry].
Proof.
  intros Hfile Hname Hhash Hnew Himage.
  unfold lines_of, decodes, stays, scan_entry.
  apply String.eqb_neq in Hname.
  rewrite Hfile, Hname, Hhash, Himage, (bool_decide_eq_false_2 _ Hnew). simpl.
  by destruct (delete_flag && removable entry).
Qed.

Lemma cache_written_iff delete_flag w :
  cache_written (get_mosaic_palette delete_flag w) = true ↔
  read_cache w ≠ cache_built (get_mosaic_palette delete_flag w).
Proof. unfold get_mosaic_palette. simpl. apply bool_decide_eq_true. Qed.

Lemma cache_file_after delete_flag w :
  cache_file (world_after (get_mosaic_palette delete_flag w)) =
  if cache_written (get_mosaic_palette delete_flag w)
  then Some (write_lines (cache_built (get_mosaic_palette delete_flag w)))
  else cache_file w.
Proof. reflexivity. Qed.

(** ** Claims on the cache file and on invalid tiles *)

(** C6: [get_mosaic_palette] opens [./cache] for writing exactly when the
    list it has built differs from the list of lines it loaded; it then
    holds the built lines, one per line, and otherwise keeps the bytes it
    had (or stays absent). *)
Theorem cache_overwritten_iff_changed delete_flag w :
  let r := get_mosaic_palette delete_flag w in
  (cache_written r = true ↔ read_cache w ≠ cache_built r) ∧
  cache_file (world_after r) =
    (if cache_written r then Some (write_lines (cache_built r))
     else cache_file w).
Proof.
  split; [apply cache_written_iff|apply cache_file_after].
Qed.

(** C9: a tile that [get_image] rejects (unreadable, not 48x48, not RGB)
    does not stop the reconciliation: the cache list and the palette are
    those of the directory without that tile, and the entries before and
    after it are treated as they are on their own.  The file leaves the
    directory only if the delete flag is set (and the removal succeeds);
    with the flag unset the directory is left as it was. *)
Theorem invalid_tile_is_skipped delete_flag w before entry after image_hash :
  mosaics w = before ++ entry :: after →
  is_file entry = true → entry_name entry ≠ ".gitkeep" →
  get_image_hash entry = Some image_hash →
  image_hash ∉ read_cache w →
  get_image (file_image entry) false None = None →
  let r := get_mosaic_palette delete_flag w in
  let without := get_mosaic_palette delete_flag (with_mosaics w (before ++ after)) in
  cache_built r = cache_built without ∧
  palette r = palette without ∧
  mosaics (world_after r) =
    mosaics (world_after (get_mosaic_palette delete_flag (with_mosaics w before)))
    ++ (if delete_flag && removable entry then [] else [entry])
    ++ mosaics (world_after (get_mosaic_palette delete_flag (with_mosaics w after))) ∧
  (delete_flag = false → mosaics (world_after r) = mosaics w).
Proof.
  intros Hdir Hfile Hname Hhash Hnew Himage r without.
  destruct (rejected_tile delete_flag (read_cache w) entry image_hash)
    as (Hlines & _ & Hstays); try done.
  assert (Hcache : cache_built r = cache_built without).
  { unfold r, without. rewrite !cache_built_eq. simpl.
    change (read_cache (with_mosaics w (before ++ after))) with (read_cache w).
    rewrite Hdir, !bind_app, bind_cons, Hlines. reflexivity. }
  repeat split.
  - exact Hcache.
  - unfold r, without. rewrite !palette_eq. by f_equal.
  - unfold r. rewrite !mosaics_after_eq. simpl.
    change (read_cache (with_mosaics w before)) with (read_cache w).
    change (read_cache (with_mosaics w after)) with (read_cache w).
    rewrite Hdir, bind_app, bind_cons, Hstays. reflexivity.
  - intros ->. apply no_delete_without_flag.
Qed.

(** C7: when the palette that [get_mosaic_palette] returns has no entry,
    the script prints its message and leaves with status 1 right after
    the reconciliation: [get_image_mask] is never called and no image is
    produced. *)
Theorem empty_palette_quits_before_mask image resize_arg delete w
    pixel_values mosaic_palette :
  get_image image true resize_arg = Some pixel_values →
  palette (get_mosaic_palette delete w) = Some mosaic_palette →
  length mosaic_palette.1 = 0%nat →
  let run := main image resize_arg delete w in
  run_exit run = quit 1 ∧
  run_calls run = [call_get_image; call_get_mosaic_palette] ∧
  (call_get_image_mask ∉ run_calls run) ∧
  run_image run = None ∧
  run_world run = world_after (get_mosaic_palette delete w).
Proof.
  intros Himage Hpalette Hempty. unfold main.
  rewrite Himage, Hpalette, Hempty. simpl.
  repeat split; try reflexivity.
  intros Hin. repeat (apply elem_of_cons in Hin as [Hin|Hin]; [discriminate|]).
  by apply elem_of_nil in Hin.
Qed.

(** ** The matcher picks the first nearest entry *)

Lemma argmin_from_spec l : ∀ pre best least,
  pre !! best = Some least →
  (∀ j x, pre !! j = Some x → (least <= x)%Qc) →
  (∀ j x, (j < best)%nat → pre !! j = Some x → (least < x)%Qc) →
  ∃ m, (pre ++ l) !! argmin_from best least (length pre) l = Some m ∧
       (∀ j x, (pre ++ l) !! j = Some x → (m <= x)%Qc) ∧
       (∀ j x, (j < argmin_from best least (length pre) l)%nat →
               (pre ++ l) !! j = Some x → (m < x)%Qc).
Proof.
  induction l as [|d l IH]; intros pre best least Hbest Hle Hlt; simpl.
  - rewrite app_nil_r. eauto.
  - assert (Hlen : length (pre ++ [d]) = S (length pre)).
    { rewrite length_app. simpl. lia. }
    rewrite (cons_middle d pre l), app_assoc, <- Hlen.
    destruct (decide (d < least)%Qc) as [Hd|Hd].
    + apply IH.
      * rewrite lookup_app_r by lia. by rewrite Nat.sub_diag.
      * intros j x Hj. apply lookup_app_Some in Hj as [Hj|[_ Hj]].
        -- apply Qclt_le_weak, Qclt_le_trans with least; eauto.
        -- apply list_lookup_singleton_Some in Hj as [_ ->]. apply Qcle_refl.
      * intros j x Hjl Hj. rewrite lookup_app_l in Hj by done.
        apply Qclt_le_trans with least; eauto.
    + apply IH.
      * apply lookup_lt_Some in Hbest as Hb. by rewrite lookup_app_l.
      * intros j x Hj. apply lookup_app_Some in Hj as [Hj|[_ Hj]]; [eauto|].
        apply list_lookup_singleton_Some in Hj as [_ ->].
        by apply Qcnot_lt_le.
      * intros j x Hjl Hj. apply lookup_lt_Some in Hbest as Hb.
        rewrite lookup_app_l in Hj by lia. eauto.
Qed.

Lemma argmin_spec l :
  l ≠ [] →
  ∃ i m, argmin l = Some i ∧ l !! i = Some m ∧
         (∀ j x, l !! j = Some x → (m <= x)%Qc) ∧
         (∀ j x, (j < i)%nat → l !! j = Some x → (m < x)%Qc).
Proof.
  destruct l as [|d l]; [done|]. intros _. simpl.
  destruct (argmin_from_spec l [d] 0%nat d) as (m & Hm & Hle & Hlt).
  - reflexivity.
  - intros j x Hj. apply list_lookup_singleton_Some in Hj as [_ ->].
    apply Qcle_refl.
  - intros j x Hj. lia.
  - exists (argmin_from 0 d 1 l), m. simpl in *. eauto.
Qed.

Lemma nearest_spec (mosaic_palette : Palette) p :
  mosaic_palette.2 ≠ [] →
  length mosaic_palette.1 = length mosaic_palette.2 →
  ∃ i fingerprint color,
    nearest mosaic_palette p = Some fingerprint ∧
    mosaic_palette.1 !! i = Some fingerprint ∧
    mosaic_palette.2 !! i = Some color ∧
    (∀ j c, mosaic_palette.2 !! j = Some c →
            (distance p color <= distance p c)%Qc) ∧
    (∀ j c, (j < i)%nat → mosaic_palette.2 !! j = Some c →
            (distance p color < distance p c)%Qc).
Proof.
  intros Hne Hlen.
  destruct (argmin_spec (distance p <$> mosaic_palette.2))
    as (i & m & Harg & Hi & Hle & Hlt).
  { intros H. apply fmap_nil_inv in H. done. }
  apply list_lookup_fmap_Some in Hi as (color & -> & Hcolor).
  destruct (lookup_lt_is_Some_2 mosaic_palette.1 i) as [fingerprint Hfp].
  { rewrite Hlen. by eapply lookup_lt_Some. }
  exists i, fingerprint, color. unfold nearest. rewrite Harg. simpl.
  repeat split; try done.
  - intros j c Hj. apply (Hle j). by rewrite list_lookup_fmap, Hj.
  - intros j c Hji Hj. apply (Hlt j); [done|]. by rewrite list_lookup_fmap, Hj.
Qed.



(** ** Parsing the flat record *)

Lemma parse_mosaic_palette_Some mosaic_palette (p : Palette) :
  parse_mosaic_palette mosaic_palette = Some p →
  length p.1 = (length mosaic_palette / 2)%nat ∧
  length p.2 = (length mosaic_palette / 2)%nat ∧
  ∀ i, (i < length mosaic_palette / 2)%nat →
    ∃ fingerprint line row,
      mosaic_palette !! (i * 2)%nat = Some fingerprint ∧
      mosaic_palette !! (i * 2 + 1)%nat = Some line ∧
      assign_row (fromstring line) = Some row ∧
      p.1 !! i = Some fingerprint ∧ p.2 !! i = Some row.
Proof.
  unfold parse_mosaic_palette. intros Hparse.
  destruct (mapM _ _) as [entries|] eqn:Hentries; [|discriminate].
  injection Hparse as <-. cbn [fst snd].
  apply mapM_Some in Hentries.
  pose proof (Forall2_length _ _ _ Hentries) as Hlen.
  rewrite length_seq in Hlen.
  rewrite !length_fmap. repeat split; try done.
  intros i Hi.
  destruct (Forall2_lookup_l _ _ _ i i Hentries) as ([fp row] & Hentry & Hbody).
  { by apply lookup_seq_lt. }
  unfold parse_entry in Hbody.
  destruct (mosaic_palette !! (i * 2)%nat) as [fingerprint|]; [|discriminate].
  destruct (mosaic_palette !! (i * 2 + 1)%nat) as [line|]; [|discriminate].
  simpl in Hbody.
  destruct (assign_row (fromstring line)) as [row'|] eqn:Hrow; [|discriminate].
  injection Hbody as <- <-.
  exists fingerprint, line, row'.
  rewrite !list_lookup_fmap, Hentry. done.
Qed.






(** ** The shape of the built record *)

Lemma flat_record_length pairs :
  length (flat_record pairs) = (2 * length pairs)%nat.
Proof.
  induction pairs as [|pair pairs IH]; [reflexivity|].
  unfold flat_record in *. rewrite bind_cons, length_app, IH. simpl. lia.
Qed.

Lemma flat_record_lookup pairs i :
  flat_record pairs !! (i * 2)%nat = fst <$> pairs !! i ∧
  flat_record pairs !! (i * 2 + 1)%nat = snd <$> pairs !! i.
Proof.
  revert i. induction pairs as [|pair pairs IH]; intros i.
  - done.
  - unfold flat_record in *. rewrite bind_cons.
    destruct i as [|i]; [done|].
    replace (S i * 2)%nat with (S (S (i * 2))) by lia.
    replace (S (S (i * 2)) + 1)%nat with (S (S (i * 2 + 1))) by lia.
    simpl. apply IH.
Qed.

Lemma parse_flat_record pairs (p : Palette) :
  parse_mosaic_palette (flat_record pairs) = Some p → p.1 = pairs.*1.
Proof.
  intros Hp.
  destruct (parse_mosaic_palette_Some _ _ Hp) as (Hlen & _ & Hentries).
  rewrite flat_record_length in Hlen, Hentries.
  replace (2 * length pairs / 2)%nat with (length pairs) in Hlen, Hentries
    by (apply Nat.div_unique with 0%nat; lia).
  apply list_eq_same_length with (length pairs);
    [by rewrite length_fmap|done|].
  intros i x y Hi Hx Hy.
  destruct (Hentries i Hi) as (fp & _ & _ & Hfp & _ & _ & Hpi & _).
  rewrite (proj1 (flat_record_lookup pairs i)), <- list_lookup_fmap in Hfp.
  congruence.
Qed.

Lemma index_found x l :
  x ∈ l → last l ≠ Some x →
  ∃ color, (i ← index x l; l !! (i + 1)%nat) = Some color.
Proof.
  intros Hin Hlast. unfold index.
  destruct (list_find (λ y, y = x) l) as [[i y]|] eqn:Hfind.
  - apply list_find_Some in Hfind as (Hi & -> & _). simpl.
    apply lookup_lt_is_Some_2.
    apply lookup_lt_Some in Hi as Hlt.
    destruct (decide (i + 1 = length l)%nat) as [Hend|]; [|lia].
    exfalso. apply Hlast. rewrite last_lookup, <- Hi. f_equal. lia.
  - apply list_find_None in Hfind.
    rewrite Forall_forall in Hfind. by destruct (Hfind x Hin).
Qed.

Lemma unscanned_entry saved_values entry :
  scanned entry = false →
  lines_of saved_values entry = [] ∧ decodes saved_values entry = [].
Proof.
  unfold scanned, lines_of, decodes, scan_entry. intros H.
  destruct (is_file entry); simpl in *; [|done]. by rewrite negb_false_iff in H; rewrite H.
Qed.

Lemma unhashed_entry saved_values entry :
  get_image_hash entry = None →
  lines_of saved_values entry = [] ∧ decodes saved_values entry = [].
Proof.
  unfold lines_of, decodes, scan_entry. intros ->. by case_match.
Qed.

Lemma new_entry saved_values entry image_hash :
  scanned entry = true → get_image_hash entry = Some image_hash →
  image_hash ∉ saved_values →
  lines_of saved_values entry =
    match get_image (file_image entry) false None with
    | Some pixel_values =>
        [image_hash; format_color (channel_averages pixel_values)]
    | None => []
    end ∧
  decodes saved_values entry = [entry].
Proof.
  unfold scanned, lines_of, decodes, scan_entry. intros Hs Hhash Hnew.
  apply andb_true_iff in Hs as [-> Hname]. apply negb_true_iff in Hname.
  rewrite Hname, Hhash, (bool_decide_eq_false_2 _ Hnew). simpl.
  by destruct (get_image _ _ _).
Qed.

Lemma known_entry saved_values entry image_hash :
  scanned entry = true → get_image_hash entry = Some image_hash →
  image_hash ∈ saved_values →
  lines_of saved_values entry =
    image_hash ::
    match i ← index image_hash saved_values; saved_values !! (i + 1)%nat with
    | Some color => [color]
    | None => []
    end ∧
  decodes saved_values entry = [].
Proof.
  unfold scanned, lines_of, decodes, scan_entry. intros Hs Hhash Hin.
  apply andb_true_iff in Hs as [-> Hname]. apply negb_true_iff in Hname.
  rewrite Hname, Hhash, (bool_decide_eq_true_2 _ Hin). simpl.
  by destruct (_ ≫= _).
Qed.

Lemma fingerprints_cons entry dir :
  fingerprints (entry :: dir) =
  match (if scanned entry then get_image_hash entry else None) with
  | Some h => h :: fingerprints dir
  | None => fingerprints dir
  end.
Proof. reflexivity. Qed.

Lemma built_record_pairs saved_values dir :
  (∀ h, last saved_values = Some h → h ∉ fingerprints dir) →
  ∃ pairs, dir ≫= lines_of saved_values = flat_record pairs ∧
           pairs.*1 `sublist_of` fingerprints dir.
Proof.
  intros Hlast. induction dir as [|entry dir IH].
  { exists []. done. }
  rewrite fingerprints_cons in Hlast |- *.
  destruct IH as (pairs & Hpairs & Hsub).
  { intros h Hh Hin. apply (Hlast h Hh).
    destruct (if scanned entry then _ else _); [by right|done]. }
  rewrite bind_cons, Hpairs.
  destruct (scanned entry) eqn:Hscan.
  2:{ rewrite (proj1 (unscanned_entry saved_values entry Hscan)).
      by exists pairs. }
  destruct (get_image_hash entry) as [image_hash|] eqn:Hhash.
  2:{ rewrite (proj1 (unhashed_entry saved_values entry Hhash)).
      by exists pairs. }
  destruct (decide (image_hash ∈ saved_values)) as [Hin|Hnew].
  - rewrite (proj1 (known_entry saved_values entry image_hash Hscan Hhash Hin)).
    destruct (index_found image_hash saved_values Hin) as [color ->].
    { intros Hl. apply (Hlast _ Hl). by left. }
    exists ((image_hash, color) :: pairs). split; [done|].
    simpl. by apply sublist_skip.
  - rewrite (proj1 (new_entry saved_values entry image_hash Hscan Hhash Hnew)).
    destruct (get_image _ _ _) as [pixel_values|].
    + exists ((image_hash, format_color (channel_averages pixel_values)) :: pairs).
      split; [done|]. simpl. by apply sublist_skip.
    + exists pairs. split; [done|]. by apply sublist_cons.
Qed.

(** C1 (amended): when the files of the tile directory have pairwise
    distinct fingerprints, and the loaded record does not end on one of
    them, the palette that [get_mosaic_palette] returns has no fingerprint
    twice. *)
Theorem palette_fingerprints_unique delete_flag w (p : Palette) :
  NoDup (fingerprints (mosaics w)) →
  (∀ h, last (read_cache w) = Some h → h ∉ fingerprints (mosaics w)) →
  palette (get_mosaic_palette delete_flag w) = Some p →
  NoDup p.1.
Proof.
  intros Hdistinct Hlast Hp.
  destruct (built_record_pairs (read_cache w) (mosaics w) Hlast)
    as (pairs & Hpairs & Hsub).
  rewrite palette_eq, cache_built_eq, Hpairs in Hp.
  rewrite (parse_flat_record _ _ Hp).
  by eapply sublist_NoDup.
Qed.

(** ** The colour of a decoded tile *)





(** ** The loader *)

Lemma load_foldl_None image_mask dir :
  foldl (load_entry image_mask) None dir = None.
Proof using Type. induction dir as [|entry dir IH]; [done|]. simpl. exact IH. Qed.

Lemma load_entry_cases image_mask images_data entry :
  (load_entry image_mask (Some images_data) entry = None ∧
   load_fails image_mask entry) ∨
  (load_entry image_mask (Some images_data) entry = Some images_data ∧
   ¬ load_fails image_mask entry ∧
   (∀ h, is_file entry = true → get_image_hash entry = Some h →
         h ∉ concat image_mask)) ∨
  (∃ image_hash image,
     load_entry image_mask (Some images_data) entry =
       Some (<[image_hash := image]> images_data) ∧
     ¬ load_fails image_mask entry ∧
     is_file entry = true ∧ get_image_hash entry = Some image_hash ∧
     image_hash ∈ concat image_mask).
Proof using Type.
  unfold load_entry, load_fails. simpl.
  destruct (is_file entry) eqn:Hfile; simpl.
  2:{ right; left. repeat split; [by intros [? _]|done]. }
  destruct (get_image_hash entry) as [image_hash|] eqn:Hhash; simpl.
  2:{ left. eauto. }
  case_bool_decide as Hin.
  - destruct (file_image entry) as [image|] eqn:Himage; simpl.
    + right; right. exists image_hash, image. repeat split; try done.
      intros (_ & [Hnone|(h & _ & _ & Hnone)]); discriminate.
    + left. split; [done|]. split; [done|]. right. eauto.
  - right; left. repeat split.
    + intros (_ & [Hnone|(h & Hh & Hmask & _)]); [discriminate|].
      injection Hh as <-. done.
    + intros h _ Hh. injection Hh as <-. done.
Qed.

Lemma file_fingerprints_cons entry dir :
  file_fingerprints (entry :: dir) =
  match (if is_file entry then get_image_hash entry else None) with
  | Some h => h :: file_fingerprints dir
  | None => file_fingerprints dir
  end.
Proof using Type. reflexivity. Qed.

Lemma load_foldl_spec image_mask dir : ∀ images_data,
  match foldl (load_entry image_mask) (Some images_data) dir with
  | None => Exists (load_fails image_mask) dir
  | Some loaded =>
      Forall (λ entry, ¬ load_fails image_mask entry) dir ∧
      ∀ h, h ∈ dom loaded ↔
           h ∈ dom images_data ∨
           (h ∈ concat image_mask ∧ h ∈ file_fingerprints dir)
  end.
Proof using Type.
  induction dir as [|entry dir IH]; intros images_data.
  { simpl. split; [constructor|]. intros h. split; [by left|].
    intros [Hh|[_ Hh]]; [done|]. by apply elem_of_nil in Hh. }
  cbn [foldl].
  destruct (load_entry_cases image_mask images_data entry)
    as [[-> Hfail]|[(-> & Hok & Hout)|(h' & image & -> & Hok & Hfile & Hhash & Hin)]].
  - rewrite load_foldl_None. by left.
  - specialize (IH images_data).
    destruct (foldl _ _ dir) as [loaded|]; [|by right].
    destruct IH as [Hall Hdom]. split; [by constructor|].
    intros h. rewrite Hdom, file_fingerprints_cons.
    destruct (is_file entry) eqn:Hfile; [|done].
    destruct (get_image_hash entry) as [h'|] eqn:Hhash; [|done].
    specialize (Hout h' eq_refl eq_refl).
    rewrite elem_of_cons. split.
    + intros [Hh|[Hmask Hh]]; [by left|]. right. split; [done|by right].
    + intros [Hh|[Hmask [->|Hh]]]; [by left|done|by right].
  - specialize (IH (<[h' := image]> images_data)).
    destruct (foldl _ _ dir) as [loaded|]; [|by right].
    destruct IH as [Hall Hdom]. split; [by constructor|].
    intros h. rewrite Hdom, dom_insert_L, file_fingerprints_cons, Hfile, Hhash.
    rewrite elem_of_union, elem_of_singleton, elem_of_cons. split.
    + intros [[->|Hh]|[Hmask Hh]].
      * right. split; [done|by left].
      * by left.
      * right. split; [done|by right].
    + intros [Hh|[Hmask [->|Hh]]].
      * left. by right.
      * left. by left.
      * right. done.
Qed.

(** C2 (amended): [load_used_images] returns [None] exactly when some file
    of the directory cannot be hashed, or some file whose fingerprint is
    in the mask cannot be opened. *)
Theorem load_fails_iff_unreadable image_mask dir :
  load_used_images image_mask dir = None ↔
  ∃ entry, entry ∈ dir ∧ load_fails image_mask entry.
Proof using Type.
  unfold load_used_images.
  pose proof (load_foldl_spec image_mask dir ∅) as Hspec.
  destruct (foldl _ _ dir) as [loaded|].
  - destruct Hspec as [Hall _]. split; [done|].
    intros (entry & Hin & Hfail). rewrite Forall_forall in Hall.
    by destruct (Hall entry Hin).
  - split; [|done]. intros _. by apply Exists_exists.
Qed.

(** C8 (amended): when [load_used_images] succeeds, the keys of the
    mapping it returns are the fingerprints of the mask that some file of
    the directory has; they are all the fingerprints of the mask when each
    of them is the fingerprint of a file. *)
Theorem loaded_keys_are_resolved_fingerprints image_mask dir
    (loaded : gmap string PILImage) :
  load_used_images image_mask dir = Some loaded →
  dom loaded =
    (list_to_set (concat image_mask) ∩ list_to_set (file_fingerprints dir)
     : gset string) ∧
  ((∀ h, h ∈ concat image_mask → h ∈ file_fingerprints dir) →
   dom loaded = (list_to_set (concat image_mask) : gset string)).
Proof using Type.
  unfold load_used_images. intros Hload.
  pose proof (load_foldl_spec image_mask dir ∅) as Hspec.
  rewrite Hload in Hspec. destruct Hspec as [_ Hdom].
  split.
  - apply set_eq. intros h.
    rewrite Hdom, dom_empty_L, elem_of_intersection, !elem_of_list_to_set.
    split; [intros [Hh|Hh]; [by apply elem_of_empty in Hh|done]|by right].
  - intros Hall. apply set_eq. intros h.
    rewrite Hdom, dom_empty_L, elem_of_list_to_set.
    split; [intros [Hh|[Hh _]]; [by apply elem_of_empty in Hh|done]|].
    intros Hh. right. split; [done|by apply Hall].
Qed.

(** ** A second run on the same directory *)

Lemma read_cache_plain w :
  Forall (λ line, plain_line line = true) (read_cache w).
Proof.
  unfold read_cache. destruct (cache_file w) as [content|]; [|constructor].
  apply file_lines_from_plain; [done|apply universal_newlines_free].
Qed.

Lemma flat_record_cons pair pairs :
  flat_record (pair :: pairs) = pair.1 :: pair.2 :: flat_record pairs.
Proof. reflexivity. Qed.

Lemma record_ok_pairs_bounded n : ∀ lines,
  (length lines <= n)%nat → record_ok lines = true →
  ∃ pairs, lines = flat_record pairs ∧
           Forall (λ pair, hex_text pair.2 = false) pairs.
Proof.
  induction n as [|n IH]; intros [|h [|c rest]] Hlen Hok;
    try (by exists []); try discriminate; simpl in Hlen; try lia.
  simpl in Hok. apply andb_true_iff in Hok as [Hc Hrest].
  apply negb_true_iff in Hc.
  destruct (IH rest) as (pairs & -> & Hpairs); [lia|done|].
  exists ((h, c) :: pairs). split; [done|]. by constructor.
Qed.

Lemma record_ok_pairs lines :
  record_ok lines = true →
  ∃ pairs, lines = flat_record pairs ∧
           Forall (λ pair, hex_text pair.2 = false) pairs.
Proof. by apply (record_ok_pairs_bounded (length lines)). Qed.

Lemma index_cons x y l :
  index x (y :: l) = if decide (y = x) then Some 0%nat else S <$> index x l.
Proof.
  unfold index. simpl. destruct (decide (y = x)); [done|].
  by destruct (list_find _ l) as [[i z]|].
Qed.

Lemma index_flat_record h pairs :
  Forall (λ pair : string * string, pair.2 ≠ h) pairs →
  h ∈ flat_record pairs →
  ∃ color, (h, color) ∈ pairs ∧
    (i ← index h (flat_record pairs); flat_record pairs !! (i + 1)%nat)
    = Some color.
Proof.
  induction 1 as [|[fp color] pairs Hcolor _ IH]; intros Hin.
  { by apply elem_of_nil in Hin. }
  rewrite flat_record_cons in Hin |- *. cbn [fst snd] in *.
  rewrite !index_cons.
  destruct (decide (fp = h)) as [->|Hfp].
  { exists color. split; [by left|done]. }
  destruct (decide (color = h)) as [|_]; [done|].
  apply elem_of_cons in Hin as [|Hin]; [done|].
  apply elem_of_cons in Hin as [|Hin]; [done|].
  destruct (IH Hin) as (c & Hc & Hlookup).
  exists c. split; [by right|].
  destruct (index h (flat_record pairs)) as [i|]; [|done].
  exact Hlookup.
Qed.

Lemma lines_of_same_digest saved_values e e' h :
  scanned e = true → scanned e' = true →
  get_image_hash e = Some h → get_image_hash e' = Some h →
  file_image e = file_image e' →
  lines_of saved_values e = lines_of saved_values e'.
Proof.
  intros Hs Hs' Hh Hh' Himage.
  destruct (decide (h ∈ saved_values)) as [Hin|Hnew].
  - rewrite (proj1 (known_entry _ _ _ Hs Hh Hin)).
    by rewrite (proj1 (known_entry _ _ _ Hs' Hh' Hin)).
  - rewrite (proj1 (new_entry _ _ _ Hs Hh Hnew)).
    by rewrite (proj1 (new_entry _ _ _ Hs' Hh' Hnew)), Himage.
Qed.

Lemma stays_cases delete_flag saved_values entry :
  stays delete_flag saved_values entry = [entry] ∨
  (stays delete_flag saved_values entry = [] ∧
   lines_of saved_values entry = []).
Proof.
  unfold stays, lines_of, scan_entry. simpl.
  repeat (case_match; simpl; auto).
Qed.

Lemma format_color_not_hex c : hex_text (format_color c) = false.
Proof.
  unfold format_color. rewrite hex_text_append.
  apply andb_false_iff. right. reflexivity.
Qed.

Lemma format_color_plain c :
  (∀ x, plain_line (format_float x) = true) →
  plain_line (format_color c) = true.
Proof.
  intros Hfmt. unfold format_color.
  rewrite !plain_line_append, !Hfmt. reflexivity.
Qed.

Section SecondRun.

Variable saved_values : list string.
Variable dir : list DirEntry.
Hypothesis format_plain : ∀ x, plain_line (format_float x) = true.
Hypothesis saved_plain : Forall (λ line, plain_line line = true) saved_values.
Hypothesis saved_ok : record_ok saved_values = true.
Hypothesis dir_hex : digests_hex dir = true.
Hypothesis dir_content : digest_fixes_image dir = true.

Lemma digest_is_hex e h :
  e ∈ dir → get_image_hash e = Some h → hex_text h = true.
Proof.
  intros He Hh. unfold digests_hex in dir_hex.
  rewrite forallb_forall in dir_hex.
  specialize (dir_hex e (proj1 (list_elem_of_In _ _) He)).
  by rewrite Hh in dir_hex.
Qed.

Lemma same_digest_same_image e1 e2 h :
  e1 ∈ dir → e2 ∈ dir →
  get_image_hash e1 = Some h → get_image_hash e2 = Some h →
  file_image e1 = file_image e2.
Proof.
  intros H1 H2 Hh1 Hh2. unfold digest_fixes_image in dir_content.
  rewrite forallb_forall in dir_content.
  specialize (dir_content e1 (proj1 (list_elem_of_In _ _) H1)).
  rewrite forallb_forall in dir_content.
  specialize (dir_content e2 (proj1 (list_elem_of_In _ _) H2)).
  rewrite Hh1, (bool_decide_eq_true_2 _ Hh2) in dir_content.
  simpl in dir_content. by apply bool_decide_eq_true in dir_content.
Qed.

Lemma entry_lines_shape e :
  e ∈ dir →
  lines_of saved_values e = [] ∨
  ∃ h color,
    scanned e = true ∧ get_image_hash e = Some h ∧
    lines_of saved_values e = [h; color] ∧
    hex_text color = false ∧ plain_line color = true.
Proof.
  intros He.
  destruct (scanned e) eqn:Hscan.
  2:{ left. by apply unscanned_entry. }
  destruct (get_image_hash e) as [h|] eqn:Hhash.
  2:{ left. by apply unhashed_entry. }
  destruct (decide (h ∈ saved_values)) as [Hin|Hnew].
  - right. rewrite (proj1 (known_entry _ _ _ Hscan Hhash Hin)).
    destruct (record_ok_pairs _ saved_ok) as (pairs & Hsaved & Hpairs).
    destruct (index_flat_record h pairs) as (color & Hcolor & Hlookup).
    { eapply Forall_impl; [exact Hpairs|]. intros pair Hpair Heq.
      cbn beta in Hpair.
      rewrite Heq, (digest_is_hex e h He Hhash) in Hpair. done. }
    { by rewrite <- Hsaved. }
    rewrite <- Hsaved in Hlookup. rewrite Hlookup.
    exists h, color. repeat split; try done.
    + rewrite Forall_forall in Hpairs. exact (Hpairs _ Hcolor).
    + rewrite Forall_forall in saved_plain. apply saved_plain.
      rewrite Hsaved. apply list_elem_of_bind. exists (h, color).
      split; [|done]. right. by left.
  - rewrite (proj1 (new_entry _ _ _ Hscan Hhash Hnew)).
    destruct (get_image _ _ _) as [pixel_values|]; [right|by left].
    exists h, (format_color (channel_averages pixel_values)).
    repeat split; try done.
    + apply format_color_not_hex.
    + by apply format_color_plain.
Qed.

Lemma built_pairs_within sub :
  sub ⊆ dir →
  ∃ pairs, sub ≫= lines_of saved_values = flat_record pairs ∧
    Forall (λ pair,
      hex_text pair.2 = false ∧ plain_line pair.2 = true ∧
      ∃ e, e ∈ dir ∧ scanned e = true ∧ get_image_hash e = Some pair.1 ∧
           lines_of saved_values e = [pair.1; pair.2]) pairs.
Proof.
  induction sub as [|e sub IH]; intros Hsub.
  { exists []. split; [done|constructor]. }
  destruct IH as (pairs & Hpairs & Hall).
  { intros x Hx. apply Hsub. by right. }
  assert (He : e ∈ dir) by (apply Hsub; by left).
  rewrite bind_cons, Hpairs.
  destruct (entry_lines_shape e He)
    as [->|(h & color & Hscan & Hhash & Hlines & Hhex & Hplain)].
  - by exists pairs.
  - rewrite Hlines. exists ((h, color) :: pairs). split; [done|].
    constructor; [|done]. cbn [fst snd]. repeat split; try done.
    by exists e.
Qed.

Lemma second_run_entry e :
  e ∈ dir →
  lines_of (dir ≫= lines_of saved_values) e = lines_of saved_values e ∧
  (decodes (dir ≫= lines_of saved_values) e = [] ∨
   (decodes (dir ≫= lines_of saved_values) e = [e] ∧
    decodes saved_values e = [e] ∧
    get_image (file_image e) false None = None)).
Proof.
  intros He.
  destruct (built_pairs_within dir) as (pairs & Hbuilt & Hall); [done|].
  destruct (scanned e) eqn:Hscan.
  2:{ destruct (unscanned_entry saved_values e Hscan) as [-> _].
      destruct (unscanned_entry (dir ≫= lines_of saved_values) e Hscan)
        as [-> ->]. auto. }
  destruct (get_image_hash e) as [h|] eqn:Hhash.
  2:{ destruct (unhashed_entry saved_values e Hhash) as [-> _].
      destruct (unhashed_entry (dir ≫= lines_of saved_values) e Hhash)
        as [-> ->]. auto. }
  pose proof (digest_is_hex e h He Hhash) as Hhex.
  destruct (decide (h ∈ dir ≫= lines_of saved_values)) as [Hin|Hout].
  - destruct (known_entry _ _ _ Hscan Hhash Hin) as [-> ->].
    split; [|by left].
    rewrite Hbuilt in Hin |- *.
    destruct (index_flat_record h pairs) as (color & Hcolor & ->); [|done|].
    { eapply Forall_impl; [exact Hall|]. intros pair (Hpair & _) Heq.
      rewrite Heq, Hhex in Hpair. done. }
    rewrite Forall_forall in Hall.
    destruct (Hall _ Hcolor) as (_ & _ & e' & He' & Hscan' & Hhash' & Hlines).
    cbn [fst snd] in *.
    rewrite (lines_of_same_digest saved_values e e' h); try done.
    by apply (same_digest_same_image e e' h).
  - assert (Hnone : lines_of saved_values e = []).
    { destruct (entry_lines_shape e He)
        as [Hnil|(h' & color & _ & Hhash' & Hlines & _)]; [done|].
      exfalso. apply Hout. apply list_elem_of_bind. exists e.
      split; [|done]. rewrite Hlines.
      rewrite Hhash in Hhash'. injection Hhash' as <-. by left. }
    destruct (decide (h ∈ saved_values)) as [Hknown|Hnew].
    { by rewrite (proj1 (known_entry _ _ _ Hscan Hhash Hknown)) in Hnone. }
    destruct (new_entry _ _ _ Hscan Hhash Hnew) as [Hlines Hdecodes].
    destruct (new_entry _ _ _ Hscan Hhash Hout) as [-> ->].
    rewrite Hnone in Hlines.
    destruct (get_image _ _ _) as [pixel_values|]; [discriminate|].
    split; [done|]. right. done.
Qed.

Lemma second_run_plain :
  Forall (λ line, plain_line line = true) (dir ≫= lines_of saved_values).
Proof.
  destruct (built_pairs_within dir) as (pairs & -> & Hall); [done|].
  induction Hall as [|pair pairs (_ & Hplain & e & He & _ & Hhash & _) _ IH];
    [constructor|].
  rewrite flat_record_cons. constructor; [|by constructor].
  apply hex_text_plain. by apply (digest_is_hex e).
Qed.

Lemma second_run_lines delete_flag :
  (dir ≫= stays delete_flag saved_values)
    ≫= lines_of (dir ≫= lines_of saved_values)
  = dir ≫= lines_of saved_values.
Proof.
  assert (Hsub : ∀ sub, sub ⊆ dir →
    (sub ≫= stays delete_flag saved_values)
      ≫= lines_of (dir ≫= lines_of saved_values)
    = sub ≫= lines_of saved_values); [|by apply Hsub].
  induction sub as [|e sub IH]; intros Hsub; [done|].
  assert (He : e ∈ dir) by (apply Hsub; by left).
  rewrite !bind_cons, bind_app, IH by (intros x Hx; apply Hsub; by right).
  f_equal.
  destruct (stays_cases delete_flag saved_values e) as [->|[-> ->]]; [|done].
  rewrite bind_singleton. by apply second_run_entry.
Qed.

Lemma second_run_decodes delete_flag e :
  e ∈ (dir ≫= stays delete_flag saved_values)
        ≫= decodes (dir ≫= lines_of saved_values) →
  e ∈ dir ≫= decodes saved_values ∧
  get_image (file_image e) false None = None.
Proof.
  intros (e' & He & He')%list_elem_of_bind.
  apply list_elem_of_bind in He' as (e'' & He' & He'').
  assert (e' = e'') as <-.
  { destruct (stays_cases delete_flag saved_values e'') as [Hs|[Hs _]];
      rewrite Hs in He'; [by apply list_elem_of_singleton in He'|].
    by apply elem_of_nil in He'. }
  destruct (second_run_entry e' He'') as [_ [Hd|(Hd & Hd0 & Hnone)]];
    rewrite Hd in He; [by apply elem_of_nil in He|].
  apply list_elem_of_singleton in He as ->.
  split; [|done]. apply list_elem_of_bind. exists e'.
  rewrite Hd0. split; [by left|done].
Qed.

End SecondRun.

Lemma read_cache_after delete_flag w :
  (∀ x, plain_line (format_float x) = true) →
  record_ok (read_cache w) = true →
  digests_hex (mosaics w) = true →
  digest_fixes_image (mosaics w) = true →
  read_cache (world_after (get_mosaic_palette delete_flag w)) =
  cache_built (get_mosaic_palette delete_flag w).
Proof.
  intros Hfmt Hok Hhex Hcontent.
  pose proof (cache_written_iff delete_flag w) as Hiff.
  unfold read_cache at 1. rewrite cache_file_after.
  destruct (cache_written _) eqn:Hwritten.
  - apply file_lines_write_lines. rewrite cache_built_eq.
    apply second_run_plain; try done. apply read_cache_plain.
  - fold (read_cache w).
    destruct (decide (read_cache w = cache_built (get_mosaic_palette delete_flag w)))
      as [Heq|Hne]; [done|].
    apply Hiff in Hne. congruence.
Qed.

(** C5 (amended): with a well-formed loaded record, a second call of
    [get_mosaic_palette] on the directory the first call left builds the
    same cache list, does not write [./cache], whose bytes stay what the
    first call left, and hands to [get_image] only tiles that the first
    call decoded and rejected; it decodes nothing when the first call
    rejected no tile. *)
Theorem second_run_keeps_cache delete_flag w :
  (∀ x, plain_line (format_float x) = true) →
  record_ok (read_cache w) = true →
  digests_hex (mosaics w) = true →
  digest_fixes_image (mosaics w) = true →
  let r1 := get_mosaic_palette delete_flag w in
  let r2 := get_mosaic_palette delete_flag (world_after r1) in
  cache_built r2 = cache_built r1 ∧
  cache_written r2 = false ∧
  cache_file (world_after r2) = cache_file (world_after r1) ∧
  (∀ e, e ∈ tiles_decoded r2 →
        e ∈ tiles_decoded r1 ∧
        get_image (file_image e) false None = None) ∧
  ((∀ e, e ∈ tiles_decoded r1 →
         get_image (file_image e) false None ≠ None) →
   tiles_decoded r2 = []).
Proof.
  intros Hfmt Hok Hhex Hcontent r1 r2.
  pose proof (read_cache_after delete_flag w Hfmt Hok Hhex Hcontent) as Hread.
  fold r1 in Hread.
  assert (Hbuilt : cache_built r2 = cache_built r1).
  { unfold r2. rewrite cache_built_eq, Hread. unfold r1.
    rewrite mosaics_after_eq, cache_built_eq.
    apply second_run_lines; try done. apply read_cache_plain. }
  assert (Hdecoded : ∀ e, e ∈ tiles_decoded r2 →
            e ∈ tiles_decoded r1 ∧
            get_image (file_image e) false None = None).
  { intros e. unfold r2. rewrite tiles_decoded_eq, Hread. unfold r1.
    rewrite mosaics_after_eq, cache_built_eq, tiles_decoded_eq.
    apply second_run_decodes; try done. apply read_cache_plain. }
  pose proof (cache_written_iff delete_flag (world_after r1)) as Hiff.
  pose proof (cache_file_after delete_flag (world_after r1)) as Hfile.
  fold r2 in Hiff, Hfile.
  assert (Hwritten : cache_written r2 = false).
  { destruct (cache_written r2); [|done].
    destruct (proj1 Hiff eq_refl). by rewrite Hread, Hbuilt. }
  repeat split; try done.
  - by rewrite Hfile, Hwritten.
  - by apply Hdecoded.
  - by apply Hdecoded.
  - intros Hvalid. destruct (tiles_decoded r2) as [|e rest] eqn:Hr2; [done|].
    destruct (Hdecoded e) as [He Hnone]; [by left|].
    by destruct (Hvalid e He).
Qed.

(** ** Further properties of the script *)

(** *** What [get_image] returns *)

Lemma rows_of_length {A} n len (l : list A) : length (rows_of n len l) = n.
Proof.
  revert l. induction n as [|n IH]; intros l; simpl; [done|]. by rewrite IH.
Qed.

Lemma rows_of_concat {A} n len (l : list A) :
  length l = (n * len)%nat → concat (rows_of n len l) = l.
Proof.
  revert l. induction n as [|n IH]; intros l Hlen; simpl.
  - by destruct l.
  - rewrite IH; [apply take_drop|]. rewrite length_drop. lia.
Qed.

Lemma rows_of_rows {A} n len (l : list A) :
  length l = (n * len)%nat →
  Forall (λ row, length row = len) (rows_of n len l).
Proof.
  revert l. induction n as [|n IH]; intros l Hlen; simpl; constructor.
  - rewrite length_take. lia.
  - apply IH. rewrite length_drop. lia.
Qed.

(** X1: when [get_image] returns an array, the file opened as an RGB
    image whose raster could be read; the array has one row per unit of
    width and one cell per unit of height of the image (after the resize,
    if one was asked for), holds the pixels of the raster in their order,
    and, unless the size check is waived, the image is 48x48. *)
Theorem get_image_shape opened ignore_size target_size pixel_values :
  get_image opened ignore_size target_size = Some pixel_values →
  ∃ opened_image data,
    let image :=
      match target_size with
      | Some size => resize opened_image size
      | None => opened_image
      end in
    opened = Some opened_image ∧
    im_mode image = "RGB"%string ∧
    im_getdata image = Some data ∧
    concat pixel_values = data ∧
    Z.of_nat (length pixel_values) = (im_size image).1 ∧
    Forall (λ row, Z.of_nat (length row) = (im_size image).2) pixel_values ∧
    (ignore_size = false → im_size image = (48, 48)).
Proof.
  unfold get_image. destruct opened as [opened_image|]; [|done].
  set (image := match target_size with
                | Some size => resize opened_image size
                | None => opened_image
                end).
  destruct (im_size image) as [width height] eqn:Hsize.
  destruct (negb ignore_size && _) eqn:Hcheck; [done|].
  destruct (negb (String.eqb _ _)) eqn:Hmode; [done|].
  apply negb_false_iff, String.eqb_eq in Hmode.
  destruct (im_getdata image) as [data|] eqn:Hdata; [|done].
  unfold reshape.
  destruct ((0 <=? width) && (0 <=? height) && _) eqn:Hshape; [|done].
  apply andb_true_iff in Hshape as [[Hw Hh]%andb_true_iff Hlen].
  apply Z.leb_le in Hw, Hh. apply Z.eqb_eq in Hlen.
  intros [= <-]. exists opened_image, data. cbn zeta. fold image.
  rewrite Hsize. cbn [fst snd].
  assert (Hnat : length data = (Z.to_nat width * Z.to_nat height)%nat) by lia.
  repeat split; try done.
  - by apply rows_of_concat.
  - rewrite rows_of_length. lia.
  - eapply Forall_impl; [by apply rows_of_rows|]. intros row Hrow.
    cbn beta in Hrow. lia.
  - intros ->. cbn [negb andb] in Hcheck.
    apply orb_false_iff in Hcheck as [Hw48 Hh48].
    apply negb_false_iff, Z.eqb_eq in Hw48, Hh48. by subst.
Qed.

(** *** What the reconciliation decodes, removes and builds *)

Lemma decodes_iff saved_values entry e :
  e ∈ decodes saved_values entry ↔
  e = entry ∧ scanned entry = true ∧
  ∃ h, get_image_hash entry = Some h ∧ h ∉ saved_values.
Proof.
  destruct (scanned entry) eqn:Hscan.
  2:{ rewrite (proj2 (unscanned_entry saved_values entry Hscan)).
      split; [by intros ?%elem_of_nil|by intros (_ & ? & _)]. }
  destruct (get_image_hash entry) as [h|] eqn:Hhash.
  2:{ rewrite (proj2 (unhashed_entry saved_values entry Hhash)).
      split; [by intros ?%elem_of_nil|by intros (_ & _ & ? & ? & _)]. }
  destruct (decide (h ∈ saved_values)) as [Hin|Hnew].
  - rewrite (proj2 (known_entry _ _ _ Hscan Hhash Hin)).
    split; [by intros ?%elem_of_nil|].
    intros (_ & _ & h' & [= <-] & Hout). done.
  - rewrite (proj2 (new_entry _ _ _ Hscan Hhash Hnew)).
    rewrite list_elem_of_singleton. split; [intros ->; eauto|by intros [-> _]].
Qed.

(** X2: the tiles [get_mosaic_palette] hands to [get_image] are the files
    of the directory, other than [.gitkeep], that could be hashed and
    whose fingerprint is not a line of the loaded record; a file whose
    fingerprint is in the record is never decoded. *)
Theorem decoded_are_the_new_files delete_flag w e :
  e ∈ tiles_decoded (get_mosaic_palette delete_flag w) ↔
  e ∈ mosaics w ∧ scanned e = true ∧
  ∃ h, get_image_hash e = Some h ∧ h ∉ read_cache w.
Proof.
  rewrite tiles_decoded_eq, list_elem_of_bind. split.
  - intros (entry & Hdec & Hentry).
    apply decodes_iff in Hdec as (-> & Hscan & Hnew). done.
  - intros (He & Hscan & Hnew). exists e. split; [|done].
    by apply decodes_iff.
Qed.

Lemma stays_removed delete_flag saved_values entry :
  stays delete_flag saved_values entry = [] →
  delete_flag = true ∧ removable entry = true ∧ scanned entry = true ∧
  get_image (file_image entry) false None = None ∧
  ∃ h, get_image_hash entry = Some h ∧ h ∉ saved_values.
Proof.
  unfold stays, scan_entry, scanned. simpl.
  destruct (is_file entry); simpl; [|done].
  destruct (String.eqb _ _); simpl; [done|].
  destruct (get_image_hash entry) as [h|]; [|done].
  case_bool_decide as Hin; simpl.
  { by destruct (_ ≫= _). }
  destruct (get_image _ _ _); [done|].
  destruct delete_flag, (removable entry); simpl; try done.
  intros _. repeat split; try done. by exists h.
Qed.

Lemma stays_sublist delete_flag saved_values dir :
  dir ≫= stays delete_flag saved_values `sublist_of` dir.
Proof.
  induction dir as [|entry dir IH]; [done|]. rewrite bind_cons.
  destruct (stays_cases delete_flag saved_values entry) as [->|[-> _]].
  - by apply sublist_skip.
  - by apply sublist_cons.
Qed.

(** X3: the directory [get_mosaic_palette] leaves is the one it found
    with some files taken out, in the same order; a file is taken out only
    with the delete flag set, and only if it is a file other than
    [.gitkeep] that could be hashed, is not in the loaded record and was
    rejected by [get_image]: a tile that decodes, a tile of the record and
    a file that cannot be read are never removed. *)
Theorem only_rejected_tiles_are_removed delete_flag w :
  let r := get_mosaic_palette delete_flag w in
  mosaics (world_after r) `sublist_of` mosaics w ∧
  ∀ e, e ∈ mosaics w → e ∉ mosaics (world_after r) →
    delete_flag = true ∧ removable e = true ∧ scanned e = true ∧
    get_image (file_image e) false None = None ∧
    ∃ h, get_image_hash e = Some h ∧ h ∉ read_cache w.
Proof.
  intros r. unfold r. rewrite mosaics_after_eq. split.
  - apply stays_sublist.
  - intros e He Hgone. apply stays_removed.
    destruct (stays_cases delete_flag (read_cache w) e) as [Hstay|[Hstay _]];
      [|done].
    destruct Hgone. apply list_elem_of_bind. exists e.
    rewrite Hstay. split; [by left|done].
Qed.

(** X4: every file is treated on its own: the cache list, the decoded
    tiles and the directory left for two directories put end to end are
    those of the first followed by those of the second (with the same
    cache file). *)
Theorem reconciliation_is_entrywise delete_flag w dir1 dir2 :
  let run dir := get_mosaic_palette delete_flag (with_mosaics w dir) in
  cache_built (run (dir1 ++ dir2)) =
    cache_built (run dir1) ++ cache_built (run dir2) ∧
  tiles_decoded (run (dir1 ++ dir2)) =
    tiles_decoded (run dir1) ++ tiles_decoded (run dir2) ∧
  mosaics (world_after (run (dir1 ++ dir2))) =
    mosaics (world_after (run dir1)) ++ mosaics (world_after (run dir2)).
Proof.
  intros run. unfold run.
  rewrite !cache_built_eq, !tiles_decoded_eq, !mosaics_after_eq.
  change (read_cache (with_mosaics w ?d)) with (read_cache w).
  cbn [mosaics with_mosaics]. by rewrite !bind_app.
Qed.

(** X5: when the loaded record does not end on a fingerprint of the
    directory, the fingerprints of the returned palette are fingerprints
    of files of the directory, in directory order: a pair of the record
    whose file is gone is dropped, and nothing else is added. *)
Theorem palette_follows_directory delete_flag w (p : Palette) :
  (∀ h, last (read_cache w) = Some h → h ∉ fingerprints (mosaics w)) →
  palette (get_mosaic_palette delete_flag w) = Some p →
  p.1 `sublist_of` fingerprints (mosaics w).
Proof.
  intros Hlast Hp.
  destruct (built_record_pairs (read_cache w) (mosaics w) Hlast)
    as (pairs & Hpairs & Hsub).
  rewrite palette_eq, cache_built_eq, Hpairs in Hp.
  by rewrite (parse_flat_record _ _ Hp).
Qed.

Lemma record_ok_flat_record pairs :
  Forall (λ pair : string * string, hex_text pair.2 = false) pairs →
  record_ok (flat_record pairs) = true.
Proof.
  induction 1 as [|pair pairs Hpair _ IH]; [done|].
  rewrite flat_record_cons. simpl. by rewrite Hpair, IH.
Qed.

(** X6: the record stays well formed from run to run: from a loaded
    record made of pairs whose second lines are not digests, and a
    directory whose fingerprints are digests, [get_mosaic_palette] builds
    a list that is again made of such pairs, and none of its lines holds
    a line break. *)
Theorem built_record_is_well_formed delete_flag w :
  (∀ x, plain_line (format_float x) = true) →
  record_ok (read_cache w) = true →
  digests_hex (mosaics w) = true →
  let r := get_mosaic_palette delete_flag w in
  record_ok (cache_built r) = true ∧
  Nat.Even (length (cache_built r)) ∧
  Forall (λ line, plain_line line = true) (cache_built r).
Proof.
  intros Hfmt Hok Hhex r. unfold r. rewrite cache_built_eq.
  destruct (built_pairs_within (read_cache w) (mosaics w) Hfmt
              (read_cache_plain w) Hok Hhex (mosaics w))
    as (pairs & Hbuilt & Hall); [done|].
  split; [|split].
  - rewrite Hbuilt. apply record_ok_flat_record.
    eapply Forall_impl; [exact Hall|]. by intros pair (Hpair & _).
  - rewrite Hbuilt, flat_record_length. by exists (length pairs).
  - apply second_run_plain; try done. apply read_cache_plain.
Qed.

(** X7: what a run leaves in [./cache] reads back, line for line, as the
    list the run built, whether the run wrote the file or found it up to
    date. *)
Theorem cache_file_reads_back delete_flag w :
  (∀ x, plain_line (format_float x) = true) →
  record_ok (read_cache w) = true →
  digests_hex (mosaics w) = true →
  let r := get_mosaic_palette delete_flag w in
  read_cache (world_after r) = cache_built r.
Proof.
  intros Hfmt Hok Hhex r. unfold r.
  unfold read_cache at 1. rewrite cache_file_after.
  destruct (cache_written _) eqn:Hwritten.
  - apply file_lines_write_lines. rewrite cache_built_eq.
    apply second_run_plain; try done. apply read_cache_plain.
  - fold (read_cache w).
    destruct (decide (read_cache w
                      = cache_built (get_mosaic_palette delete_flag w)))
      as [Heq|Hne]; [done|].
    apply cache_written_iff in Hne. congruence.
Qed.

(** X8: whatever the bytes of [./cache], no line loaded from it holds a
    line feed or a carriage return, and writing the loaded lines out and
    loading them again gives the same lines. *)
Theorem loaded_lines_are_stable w :
  Forall (λ line, plain_line line = true) (read_cache w) ∧
  read_cache {| cache_file := Some (write_lines (read_cache w));
                mosaics := mosaics w |}
  = read_cache w.
Proof.
  split; [apply read_cache_plain|].
  unfold read_cache at 1. cbn [cache_file].
  apply file_lines_write_lines, read_cache_plain.
Qed.

(** *** When the record does not parse *)

Lemma assign_row_None values :
  assign_row values = None ↔
  length values ≠ 1%nat ∧ length values ≠ 3%nat.
Proof.
  unfold assign_row.
  destruct values as [|a [|b [|c [|d values]]]]; simpl;
    split; try done; try (by intros [? ?]).
Qed.

(** X9: [parse_mosaic_palette] raises exactly when the second line of
    some pair parses to a number of values other than one and three; a
    line left over after the last pair is never looked at. *)
Theorem parse_raises_iff mosaic_palette :
  parse_mosaic_palette mosaic_palette = None ↔
  ∃ i line,
    (i < length mosaic_palette / 2)%nat ∧
    mosaic_palette !! (i * 2 + 1)%nat = Some line ∧
    length (fromstring line) ≠ 1%nat ∧ length (fromstring line) ≠ 3%nat.
Proof.
  split.
  - unfold parse_mosaic_palette. intros Hnone.
    destruct (mapM _ _) as [entries|] eqn:Hentries; [done|].
    apply mapM_None, Exists_exists in Hentries as (i & Hi & Hentry).
    apply elem_of_seq in Hi as [_ Hi]. rewrite Nat.add_0_l in Hi.
    pose proof (Nat.div_mod_eq (length mosaic_palette) 2) as Hdiv.
    pose proof (Nat.mod_upper_bound (length mosaic_palette) 2) as Hmod.
    destruct (lookup_lt_is_Some_2 mosaic_palette (i * 2)) as [fp Hfp]; [lia|].
    destruct (lookup_lt_is_Some_2 mosaic_palette (i * 2 + 1))
      as [line Hline]; [lia|].
    unfold parse_entry in Hentry. rewrite Hfp, Hline in Hentry.
    simpl in Hentry.
    destruct (assign_row (fromstring line)) as [row|] eqn:Hrow; [done|].
    exists i, line. split; [done|]. split; [done|].
    by apply assign_row_None.
  - intros (i & line & Hi & Hline & Hcount).
    destruct (parse_mosaic_palette mosaic_palette) as [p|] eqn:Hp; [|done].
    destruct (parse_mosaic_palette_Some _ _ Hp) as (_ & _ & Hentries).
    destruct (Hentries i Hi) as (_ & line' & row & _ & Hline' & Hrow & _).
    rewrite Hline in Hline'. injection Hline' as <-.
    apply assign_row_None in Hcount. congruence.
Qed.

(** *** The matcher on the parsed palette *)

Lemma elem_of_concat {A} (x : A) (ls : list (list A)) :
  x ∈ concat ls ↔ ∃ l, x ∈ l ∧ l ∈ ls.
Proof.
  induction ls as [|l ls IH]; simpl.
  - split; [by intros ?%elem_of_nil|by intros (l & _ & ?%elem_of_nil)].
  - rewrite elem_of_app, IH. split.
    + intros [Hx|(l' & Hx & Hl')]; [exists l; split; [done|by left]|].
      exists l'. split; [done|by right].
    + intros (l' & Hx & [->|Hl']%elem_of_cons); [by left|].
      right. by exists l'.
Qed.

Lemma get_image_mask_cells pixel_values mosaic_palette image_mask :
  get_image_mask pixel_values mosaic_palette = Some image_mask ↔
  Forall2 (Forall2 (λ p fingerprint,
             nearest mosaic_palette p = Some fingerprint))
          pixel_values image_mask.
Proof.
  unfold get_image_mask. rewrite mapM_Some.
  split; intros H; (eapply Forall2_impl; [exact H|]);
    intros row mask_row; by rewrite mapM_Some.
Qed.

Lemma get_image_mask_total pixel_values (mosaic_palette : Palette) :
  mosaic_palette.2 ≠ [] →
  length mosaic_palette.1 = length mosaic_palette.2 →
  is_Some (get_image_mask pixel_values mosaic_palette).
Proof.
  intros Hne Hlen. apply mapM_is_Some, Forall_forall. intros row _.
  apply mapM_is_Some, Forall_forall. intros p _. unfold compose.
  destruct (nearest_spec mosaic_palette p Hne Hlen) as (i & fp & c & -> & _).
  by eexists.
Qed.

(** X10: a palette that [parse_mosaic_palette] returns has as many
    fingerprints as colours, and if it has an entry [get_image_mask] does
    not raise on it, whatever the pixel grid: past the test of the script
    on an empty palette the matcher always returns a mask. *)
Theorem parsed_palette_feeds_matcher mosaic_palette (p : Palette) :
  parse_mosaic_palette mosaic_palette = Some p →
  length p.1 = length p.2 ∧
  (length p.1 ≠ 0%nat →
   ∀ pixel_values, is_Some (get_image_mask pixel_values p)).
Proof.
  intros Hp.
  destruct (parse_mosaic_palette_Some _ _ Hp) as (H1 & H2 & _).
  split; [congruence|].
  intros Hne pixel_values. apply get_image_mask_total; [|congruence].
  intros Hnil. apply Hne. rewrite H1, <- H2, Hnil. done.
Qed.

Lemma mask_cells_in_palette pixel_values (mosaic_palette : Palette)
    image_mask fingerprint :
  Forall2 (Forall2 (λ p fp, nearest mosaic_palette p = Some fp))
          pixel_values image_mask →
  fingerprint ∈ concat image_mask → fingerprint ∈ mosaic_palette.1.
Proof.
  intros Hmask (mask_row & Hcell & Hrow)%elem_of_concat.
  apply list_elem_of_lookup in Hrow as [x Hrow].
  apply list_elem_of_lookup in Hcell as [y Hcell].
  destruct (Forall2_lookup_r _ _ _ _ _ Hmask Hrow) as (row & _ & Hcells).
  destruct (Forall2_lookup_r _ _ _ _ _ Hcells Hcell) as (p & _ & Hnear).
  unfold nearest in Hnear.
  destruct (argmin _) as [i|]; [|done]. simpl in Hnear.
  by eapply list_elem_of_lookup_2.
Qed.

(** X11: the matcher invents no fingerprint: every cell of a mask that
    [get_image_mask] returns holds a fingerprint of the palette it was
    given, and the mask has the shape of the pixel grid. *)
Theorem mask_holds_palette_fingerprints pixel_values (mosaic_palette : Palette)
    image_mask :
  get_image_mask pixel_values mosaic_palette = Some image_mask →
  (∀ fingerprint, fingerprint ∈ concat image_mask →
                  fingerprint ∈ mosaic_palette.1) ∧
  Forall2 (λ row mask_row, length mask_row = length row)
          pixel_values image_mask.
Proof.
  intros Hmask%get_image_mask_cells. split.
  - intros fingerprint. by apply mask_cells_in_palette with pixel_values.
  - eapply Forall2_impl; [exact Hmask|]. intros row mask_row Hcells.
    symmetry. by eapply Forall2_length.
Qed.

(** X12: on a palette without colours [get_image_mask] raises as soon as
    the grid has a pixel, and returns empty rows for a grid that has
    none. *)
Theorem empty_palette_raises_on_a_pixel pixel_values (mosaic_palette : Palette) :
  mosaic_palette.2 = [] →
  (get_image_mask pixel_values mosaic_palette = None ↔
   concat pixel_values ≠ []) ∧
  (concat pixel_values = [] →
   get_image_mask pixel_values mosaic_palette
   = Some ((λ _, []) <$> pixel_values)).
Proof.
  intros Hempty. unfold get_image_mask.
  induction pixel_values as [|row pixel_values [IHnone IHsome]].
  { split; [|done]. split; [done|]. intros Hne. by destruct Hne. }
  destruct row as [|p row].
  - cbn [mapM concat app]. change (mapM (nearest mosaic_palette) [])
      with (Some ([] : list string)). simpl. split.
    + destruct (mapM _ pixel_values) as [rest|] eqn:Hrest; simpl.
      * split; [done|]. intros Hne. by apply IHnone in Hne.
      * split; [|done]. intros _. by apply IHnone.
    + intros Hnil. by rewrite (IHsome Hnil).
  - assert (Hp : mapM (nearest mosaic_palette) (p :: row) = None).
    { simpl. unfold nearest. by rewrite Hempty. }
    simpl in Hp |- *. rewrite Hp. simpl. split; [done|done].
Qed.

Lemma this_distance (p : pixel) (color : Z * Z * Z) :
  (this (distance p color) ==
   (Z.abs (color.1.1 - p.1.1) + Z.abs (color.1.2 - p.1.2)
    + Z.abs (color.2 - p.2)) # 3)%Q.
Proof.
  unfold distance, average.
  set (a := Z.abs (color.1.1 - p.1.1)). set (b := Z.abs (color.1.2 - p.1.2)).
  set (c := Z.abs (color.2 - p.2)).
  change (foldr Z.add 0 [a; b; c]) with (a + (b + (c + 0))).
  change (Z.of_nat (length [a; b; c])) with 3.
  set (s := a + (b + (c + 0))). replace (a + b + c) with s by (unfold s; lia).
  unfold Qcdiv, Qcmult, Qcinv. simpl.
  rewrite !Qred_correct. unfold Qeq. simpl. lia.
Qed.

Lemma distance_nonneg p color : (0 <= distance p color)%Qc.
Proof.
  unfold Qcle. rewrite this_distance. unfold Qle. simpl. lia.
Qed.



(** *** The loader and the assembler *)




Lemma load_foldl_app image_mask dir1 dir2 images_data loaded :
  foldl (load_entry image_mask) (Some images_data) (dir1 ++ dir2) = Some loaded →
  ∃ middle,
    foldl (load_entry image_mask) (Some images_data) dir1 = Some middle ∧
    foldl (load_entry image_mask) (Some middle) dir2 = Some loaded.
Proof using Type.
  rewrite foldl_app.
  destruct (foldl _ _ dir1) as [middle|]; [by exists middle|].
  by rewrite load_foldl_None.
Qed.

Lemma load_foldl_source image_mask dir : ∀ images_data loaded h image,
  foldl (load_entry image_mask) (Some images_data) dir = Some loaded →
  loaded !! h = Some image →
  images_data !! h = Some image ∨
  ∃ entry, entry ∈ dir ∧ is_file entry = true ∧
           get_image_hash entry = Some h ∧ file_image entry = Some image ∧
           h ∈ concat image_mask.
Proof using Type.
  induction dir as [|entry dir IH]; intros images_data loaded h image.
  { simpl. intros [= ->]. by left. }
  cbn [foldl]. unfold load_entry at 2. simpl.
  destruct (is_file entry) eqn:Hfile; simpl.
  2:{ intros Hload Hh. destruct (IH _ _ _ _ Hload Hh)
        as [?|(e & ? & ?)]; [by left|right; exists e; split; [by right|done]]. }
  destruct (get_image_hash entry) as [h'|] eqn:Hhash; simpl.
  2:{ by rewrite load_foldl_None. }
  case_bool_decide as Hin.
  2:{ intros Hload Hh. destruct (IH _ _ _ _ Hload Hh)
        as [?|(e & ? & ?)]; [by left|right; exists e; split; [by right|done]]. }
  destruct (file_image entry) as [image'|] eqn:Himage; simpl.
  2:{ by rewrite load_foldl_None. }
  intros Hload Hh. destruct (IH _ _ _ _ Hload Hh) as [Hins|(e & ? & ?)].
  - destruct (decide (h' = h)) as [->|Hne].
    + rewrite lookup_insert_eq in Hins. injection Hins as ->.
      right. exists entry. split; [by left|done].
    + rewrite lookup_insert_ne in Hins by done. by left.
  - right. exists e. split; [by right|done].
Qed.

Lemma load_foldl_untouched image_mask dir : ∀ images_data loaded h,
  foldl (load_entry image_mask) (Some images_data) dir = Some loaded →
  (∀ entry, entry ∈ dir → is_file entry = true →
            get_image_hash entry ≠ Some h) →
  loaded !! h = images_data !! h.
Proof using Type.
  induction dir as [|entry dir IH]; intros images_data loaded h.
  { simpl. by intros [= ->]. }
  cbn [foldl]. intros Hload Hother.
  assert (Hrest : ∀ e, e ∈ dir → is_file e = true → get_image_hash e ≠ Some h)
    by (intros e He; apply Hother; by right).
  destruct (load_entry_cases image_mask images_data entry)
    as [[Hnone _]|[(Hsame & _)|(h' & image & Hins & _ & Hfile & Hhash & _)]].
  - rewrite Hnone, load_foldl_None in Hload. done.
  - rewrite Hsame in Hload. by apply IH.
  - rewrite Hins in Hload. rewrite (IH _ _ _ Hload Hrest).
    apply lookup_insert_ne. intros ->.
    by apply (Hother entry ltac:(by left) Hfile).
Qed.

(** X15: every tile [load_used_images] returns is the image opened from
    a file of the directory whose fingerprint is the key and is in the
    mask; when several files have the fingerprint, the key holds the image
    of the last of them. *)
Theorem loaded_tiles_come_from_files image_mask dir
    (loaded : gmap string PILImage) :
  load_used_images image_mask dir = Some loaded →
  (∀ h image, loaded !! h = Some image →
     ∃ entry, entry ∈ dir ∧ is_file entry = true ∧
              get_image_hash entry = Some h ∧
              file_image entry = Some image ∧ h ∈ concat image_mask) ∧
  (∀ before entry after h,
     dir = before ++ entry :: after →
     is_file entry = true → get_image_hash entry = Some h →
     h ∈ concat image_mask →
     (∀ e, e ∈ after → is_file e = true → get_image_hash e ≠ Some h) →
     loaded !! h = file_image entry ∧ is_Some (file_image entry)).
Proof using Type.
  unfold load_used_images. intros Hload. split.
  - intros h image Hh.
    destruct (load_foldl_source _ _ _ _ _ _ Hload Hh) as [Hempty|?]; [|done].
    by rewrite lookup_empty in Hempty.
  - intros before entry after h -> Hfile Hhash Hin Hlast.
    apply load_foldl_app in Hload as (middle & _ & Hload).
    cbn [foldl] in Hload. unfold load_entry at 2 in Hload.
    simpl in Hload. rewrite Hfile, Hhash in Hload. simpl in Hload.
    rewrite (bool_decide_eq_true_2 _ Hin) in Hload.
    destruct (file_image entry) as [image|]; simpl in Hload.
    2:{ by rewrite load_foldl_None in Hload. }
    rewrite (load_foldl_untouched _ _ _ _ _ Hload Hlast).
    split; [apply lookup_insert_eq|by eexists].
Qed.

(** *** The script as a whole *)





(** X18: when the script ends with status 0, the source image was
    accepted and the image produced has one tile for each of its pixels,
    row by row; every tile is the image opened from a file that is in the
    tile directory at the end of the run. *)
Theorem successful_run_image image resize_arg delete w :
  let run := main image resize_arg delete w in
  run_exit run = quit 0 →
  ∃ pixel_values new_image,
    get_image image true resize_arg = Some pixel_values ∧
    run_image run = Some new_image ∧
    Forall2 (λ row tiles, length tiles = length row)
            pixel_values new_image ∧
    ∀ tile, tile ∈ concat new_image →
      ∃ entry, entry ∈ mosaics (run_world run) ∧ is_file entry = true ∧
               file_image entry = Some tile.
Proof.
  intros run. unfold run, main.
  destruct (get_image image true resize_arg) as [pixel_values|]; [|done].
  destruct (palette _) as [p|]; [|done].
  destruct (length p.1 =? 0)%nat; [done|].
  destruct (get_image_mask pixel_values p) as [image_mask|] eqn:Hmask; [|done].
  destruct (load_used_images _ _) as [loaded|] eqn:Hload; [|done].
  destruct (generate_image image_mask loaded) as [new_image|] eqn:Hnew;
    [|done].
  intros _. exists pixel_values, new_image. cbn [run_image run_world].
  apply get_image_mask_cells in Hmask.
  unfold generate_image in Hnew. apply mapM_Some in Hnew.
  repeat split; try done.
  - eapply Forall2_trans; [|exact Hmask|exact Hnew].
    intros row mask_row tiles Hcells Htiles. cbn beta in *.
    apply mapM_Some in Htiles.
    rewrite <- (Forall2_length _ _ _ Htiles). symmetry.
    by eapply Forall2_length.
  - intros tile (tiles & Htile & Htiles)%elem_of_concat.
    apply list_elem_of_lookup in Htiles as [x Htiles].
    apply list_elem_of_lookup in Htile as [y Htile].
    destruct (Forall2_lookup_r _ _ _ _ _ Hnew Htiles) as (row & _ & Hrow).
    apply mapM_Some in Hrow.
    destruct (Forall2_lookup_r _ _ _ _ _ Hrow Htile) as (h & _ & Hh).
    unfold load_used_images in Hload.
    destruct (load_foldl_source _ _ _ _ _ _ Hload Hh)
      as [Hempty|(entry & He & Hfile & _ & Himage & _)].
    + by rewrite lookup_empty in Hempty.
    + by exists entry.
Qed.

(** *** Tiles of the record, and the first run *)

Lemma index_first x l i :
  index x l = Some i →
  l !! i = Some x ∧ ∀ j, (j < i)%nat → l !! j ≠ Some x.
Proof.
  unfold index. destruct (list_find _ l) as [[i' y]|] eqn:Hfind; [|done].
  intros [= <-]. apply list_find_Some in Hfind as (Hi & -> & Hfirst).
  split; [done|]. intros j Hj Hx. by apply (Hfirst j x).
Qed.

(** X19: a file whose fingerprint is in a well-formed loaded record is
    not decoded: after its fingerprint the cache list gets the line that
    follows the first occurrence of the fingerprint in the record, as it
    stands, whatever the file would decode to. *)
Theorem known_tile_keeps_stored_colour delete_flag w before entry after h :
  mosaics w = before ++ entry :: after →
  scanned entry = true →
  get_image_hash entry = Some h →
  h ∈ read_cache w →
  record_ok (read_cache w) = true →
  hex_text h = true →
  let run dir := get_mosaic_palette delete_flag (with_mosaics w dir) in
  ∃ i color,
    read_cache w !! i = Some h ∧
    (∀ j, (j < i)%nat → read_cache w !! j ≠ Some h) ∧
    read_cache w !! (i + 1)%nat = Some color ∧
    cache_built (get_mosaic_palette delete_flag w) =
      cache_built (run before) ++ [h; color] ++ cache_built (run after) ∧
    tiles_decoded (get_mosaic_palette delete_flag w) =
      tiles_decoded (run before) ++ tiles_decoded (run after).
Proof.
  intros Hdir Hscan Hhash Hin Hok Hhex run.
  destruct (known_entry _ _ _ Hscan Hhash Hin) as [Hlines Hdecodes].
  destruct (record_ok_pairs _ Hok) as (pairs & Hsaved & Hpairs).
  destruct (index_flat_record h pairs) as (color & _ & Hlookup).
  { eapply Forall_impl; [exact Hpairs|]. intros pair Hpair Heq.
    cbn beta in Hpair. rewrite Heq, Hhex in Hpair. done. }
  { by rewrite <- Hsaved. }
  rewrite <- Hsaved in Hlookup. rewrite Hlookup in Hlines.
  destruct (index h (read_cache w)) as [i|] eqn:Hindex; [|done].
  simpl in Hlookup. destruct (index_first _ _ _ Hindex) as [Hi Hfirst].
  exists i, color. unfold run.
  rewrite !cache_built_eq, !tiles_decoded_eq.
  change (read_cache (with_mosaics w ?d)) with (read_cache w).
  cbn [mosaics with_mosaics].
  rewrite Hdir, !bind_app, !bind_cons, Hlines, Hdecodes. done.
Qed.

(** X20: a run that finds no [./cache] creates it exactly when it has
    built a line: with no usable tile the file stays absent, otherwise it
    holds the built lines. *)
Theorem first_run_creates_cache delete_flag w :
  cache_file w = None →
  let r := get_mosaic_palette delete_flag w in
  (cache_built r = [] → cache_file (world_after r) = None) ∧
  (cache_built r ≠ [] →
   cache_file (world_after r) = Some (write_lines (cache_built r))).
Proof.
  intros Habsent r. unfold r. rewrite cache_file_after, Habsent.
  pose proof (cache_written_iff delete_flag w) as Hiff.
  unfold read_cache in Hiff at 1. rewrite Habsent in Hiff.
  destruct (cache_written _).
  - split; [|done]. intros Hnil. by destruct (proj1 Hiff eq_refl).
  - split; [done|]. intros Hne.
    assert (Hw : false = true) by (apply Hiff; congruence). done.
Qed.

End Script.


(** ** The script on the sample directories *)

Lemma digit_char_plain d s :
  plain_line s = true → plain_line (String (digit_char d) s) = true.
Proof.
  unfold plain_line, digit_char. intros [H1 H2]%andb_true_iff.
  pose proof (Z.mod_pos_bound d 10 eq_refl) as Hd.
  set (k := Z.to_nat (d mod 10)).
  assert (Hk : (k < 10)%nat) by lia. clearbody k.
  do 10 (destruct k as [|k]; [simpl; by rewrite H1, H2|]). lia.
Qed.

Lemma natural_digits_plain fuel : ∀ n acc,
  plain_line acc = true → plain_line (natural_digits fuel n acc) = true.
Proof.
  induction fuel as [|fuel IH]; intros n acc Hacc; simpl; [done|].
  destruct (n / 10 =? 0); [|apply IH]; by apply digit_char_plain.
Qed.

Lemma fraction_digits_plain fuel : ∀ r den,
  plain_line (fraction_digits fuel r den) = true.
Proof.
  induction fuel as [|fuel IH]; intros r den; simpl; [done|].
  destruct (r =? 0); [done|]. apply digit_char_plain, IH.
Qed.

Lemma decimal_text_plain x : plain_line (decimal_text x) = true.
Proof.
  unfold decimal_text, natural_text. rewrite !plain_line_append.
  rewrite natural_digits_plain by done.
  destruct (_ <? 0), (String.eqb _ ""); by rewrite ?fraction_digits_plain.
Qed.

(** C1, as stated, fails: two files with the same bytes under two names
    give the palette the same fingerprint twice. *)
Lemma duplicate_files_repeat_fingerprint :
  ∃ p : Palette,
    palette (get_mosaic_palette same_size decimal_text decimal_values false
               (fresh [black_png; black_copy_png])) = Some p ∧
    ¬ NoDup p.1.
Proof.
  exists ([black_md5; black_md5], [(0, 0, 0); (0, 0, 0)]).
  split; [by vm_compute|].
  intros Hnodup. apply NoDup_cons in Hnodup as [Hnotin _].
  apply Hnotin. by left.
Qed.

Lemma palette_fingerprints_unique_witness :
  NoDup (["c4ca4238a0b923820dcc509a6f75849b";
          "c81e728d9d4c2f636f067f89cc14862c"], [(0, 0, 0); (255, 255, 255)]).1.
Proof.
  apply (palette_fingerprints_unique same_size decimal_text decimal_values
           false (fresh [black_png; white_png])).
  - apply (bool_decide_unpack _). by vm_compute.
  - intros h Hh. discriminate.
  - by vm_compute.
Defined.

(** C2, as stated, fails: a fingerprint of the mask that no file of the
    directory has does not make [load_used_images] fail. *)
Lemma missing_fingerprint_is_not_an_error :
(absent_md5 ∉ file_fingerprints [black_png]) ∧
  load_used_images [[absent_md5]] [black_png] = Some ∅.
Proof.
  split; [|by vm_compute].
  intros Hin. apply list_elem_of_singleton in Hin. discriminate.
Qed.





(** C5, as stated, fails: a tile the first run rejected stays in the
    directory and is decoded again by the second run. *)
Lemma rejected_tile_is_decoded_again :
  let r1 := get_mosaic_palette same_size decimal_text decimal_values false
              (fresh [black_png; small_png]) in
  let r2 := get_mosaic_palette same_size decimal_text decimal_values false
              (world_after r1) in
  mosaics (world_after r1) = [black_png; small_png] ∧
  tiles_decoded r2 = [small_png] ∧ tiles_decoded r2 ≠ [].
Proof. by vm_compute. Qed.

Lemma second_run_keeps_cache_witness :
  let r1 := get_mosaic_palette same_size decimal_text decimal_values false
              (fresh [black_png; small_png; white_png]) in
  let r2 := get_mosaic_palette same_size decimal_text decimal_values false
              (world_after r1) in
  cache_built r2 = cache_built r1 ∧ cache_written r2 = false ∧
  cache_file (world_after r2) = cache_file (world_after r1).
Proof.
  destruct (second_run_keeps_cache same_size decimal_text decimal_values false
              (fresh [black_png; small_png; white_png]))
    as (Hbuilt & Hwritten & Hfile & _).
  - apply decimal_text_plain.
  - reflexivity.
  - by vm_compute.
  - by vm_compute.
  - by repeat split.
Defined.

Lemma empty_palette_quits_before_mask_witness :
  run_exit (main same_size decimal_text decimal_values (Some thumbnail) None
              false (fresh [small_png])) = quit 1.
Proof.
  destruct (empty_palette_quits_before_mask same_size decimal_text
              decimal_values (Some thumbnail) None false (fresh [small_png])
              [[(10, 10, 10)]; [(250, 250, 250)]] ([], []))
    as (Hexit & _).
  - by vm_compute.
  - by vm_compute.
  - reflexivity.
  - exact Hexit.
Defined.

(** C8, as stated, fails: the fingerprint of the mask that no file has is
    not a key of the mapping returned. *)
Lemma unresolved_fingerprint_is_not_loaded :
  ∃ loaded : gmap string PILImage,
    load_used_images [[absent_md5]] [black_png] = Some loaded ∧
    dom loaded ≠ (list_to_set (concat [[absent_md5]]) : gset string).
Proof.
  exists ∅. split; [by vm_compute|].
  rewrite dom_empty_L. intros Hdom.
  assert (Hin : absent_md5 ∈ (∅ : gset string)).
  { rewrite Hdom. apply elem_of_list_to_set. by left. }
  by apply elem_of_empty in Hin.
Qed.

Lemma loaded_keys_are_resolved_fingerprints_witness :
  ∃ loaded : gmap string PILImage,
    load_used_images [["100"; "117"; "100"]; ["149"; "100"; "117"]]
      fifty_tiles = Some loaded ∧
    dom loaded = (list_to_set ["100"; "117"; "100"; "149"; "100"; "117"]
                  : gset string) ∧
    size loaded = 3%nat.
Proof.
  assert (∃ loaded : gmap string PILImage,
            load_used_images [["100"; "117"; "100"]; ["149"; "100"; "117"]]
              fifty_tiles = Some loaded ∧
            size loaded = 3%nat) as (loaded & Hload & Hsize).
  { eexists. split; [by vm_compute|by vm_compute]. }
  exists loaded. split; [exact Hload|]. split; [|exact Hsize].
  apply (loaded_keys_are_resolved_fingerprints _ _ _ Hload).
  change (concat [["100"; "117"; "100"]; ["149"; "100"; "117"]]
          ⊆ file_fingerprints fifty_tiles).
  apply (bool_decide_unpack _). by vm_compute.
Defined.

Lemma invalid_tile_is_skipped_witness :
  let r := get_mosaic_palette same_size decimal_text decimal_values true
             (fresh [black_png; small_png; white_png]) in
  cache_built r =
    cache_built (get_mosaic_palette same_size decimal_text decimal_values
                   true (fresh [black_png; white_png])) ∧
  mosaics (world_after r) = [black_png; white_png].
Proof.
  destruct (invalid_tile_is_skipped same_size decimal_text decimal_values
              true (fresh [black_png; small_png; white_png])
              [black_png] small_png [white_png] small_md5)
    as (Hcache & _ & Hdir & _).
  - reflexivity.
  - reflexivity.
  - discriminate.
  - reflexivity.
  - apply not_elem_of_nil.
  - by vm_compute.
  - split; [exact Hcache|]. rewrite Hdir. by vm_compute.
Defined.



(** ** Further properties on the sample directories *)

Lemma get_image_shape_witness :
  ∃ opened_image data,
    Some thumbnail = Some opened_image ∧
    im_getdata opened_image = Some data ∧
    concat [[(10, 10, 10)]; [(250, 250, 250)]] = data.
Proof.
  destruct (get_image_shape same_size (Some thumbnail) true None
              [[(10, 10, 10)]; [(250, 250, 250)]])
    as (opened_image & data & Hopen & _ & Hdata & Hconcat & _);
    [by vm_compute|].
  by exists opened_image, data.
Defined.

Lemma palette_follows_directory_witness :
  [black_md5] `sublist_of` fingerprints [black_png].
Proof.
  apply (palette_follows_directory same_size decimal_text decimal_values false
           (recorded [white_md5; "255.0 255.0 255.0";
                      black_md5; "0.0 0.0 0.0"] [black_png])
           ([black_md5], [(0, 0, 0)])).
  - intros h Hh.
    assert (h = "0.0 0.0 0.0"%string) as ->
      by (vm_compute in Hh; by injection Hh).
    intros Hin%list_elem_of_singleton. discriminate.
  - by vm_compute.
Defined.

Lemma built_record_is_well_formed_witness :
  record_ok
    (cache_built
       (get_mosaic_palette same_size decimal_text decimal_values false
          (recorded [white_md5; "255.0 255.0 255.0"]
             [black_png; small_png; white_png]))) = true.
Proof.
  destruct (built_record_is_well_formed same_size decimal_text decimal_values
              false (recorded [white_md5; "255.0 255.0 255.0"]
                       [black_png; small_png; white_png]))
    as (Hok & _).
  - apply decimal_text_plain.
  - by vm_compute.
  - by vm_compute.
  - exact Hok.
Defined.

Lemma cache_file_reads_back_witness :
  let r := get_mosaic_palette same_size decimal_text decimal_values false
             (recorded [white_md5; "255.0 255.0 255.0"]
                [black_png; small_png; white_png]) in
  read_cache (world_after r) = cache_built r.
Proof.
  apply (cache_file_reads_back same_size decimal_text decimal_values false
           (recorded [white_md5; "255.0 255.0 255.0"]
              [black_png; small_png; white_png])).
  - apply decimal_text_plain.
  - by vm_compute.
  - by vm_compute.
Defined.

Lemma parsed_palette_feeds_matcher_witness :
  length ([black_md5], [(0, 0, 0)]).1 = length ([black_md5], [(0, 0, 0)]).2.
Proof.
  destruct (parsed_palette_feeds_matcher decimal_values
              [black_md5; "0.0 0.0 0.0"] ([black_md5], [(0, 0, 0)]))
    as [Hlen _]; [by vm_compute|exact Hlen].
Defined.

Lemma mask_holds_palette_fingerprints_witness :
  "white"%string ∈ (["black"; "white"], [(0, 0, 0); (255, 255, 255)]).1.
Proof.
  destruct (mask_holds_palette_fingerprints
              [[(10, 10, 10); (250, 250, 250)]]
              (["black"; "white"], [(0, 0, 0); (255, 255, 255)])
              [["black"; "white"]]) as [Hcells _];
    [by vm_compute|].
  apply Hcells. apply (bool_decide_unpack _). by vm_compute.
Defined.

Lemma empty_palette_raises_on_a_pixel_witness :
  get_image_mask [[(1, 2, 3)]] ([], []) = None.
Proof.
  destruct (empty_palette_raises_on_a_pixel [[(1, 2, 3)]] ([], []))
    as [[_ Hraises] _]; [reflexivity|].
  apply Hraises. discriminate.
Defined.


Lemma loaded_tiles_come_from_files_witness :
  ∃ loaded : gmap string PILImage,
    load_used_images [[black_md5]] [black_png; black_copy_png] = Some loaded ∧
    loaded !! black_md5 = file_image black_copy_png.
Proof.
  assert (∃ loaded : gmap string PILImage,
            load_used_images [[black_md5]] [black_png; black_copy_png]
            = Some loaded) as [loaded Hload]
    by (eexists; by vm_compute).
  exists loaded. split; [exact Hload|].
  destruct (loaded_tiles_come_from_files _ _ _ Hload) as [_ Hlast].
  destruct (Hlast [black_png] black_copy_png [] black_md5) as [Hkey _];
    try done.
  - by left.
  - by intros e Hin%elem_of_nil.
Defined.


Lemma successful_run_image_witness :
  ∃ new_image,
    run_image (main same_size decimal_text decimal_values (Some thumbnail)
                 None false (fresh [black_png; white_png]))
    = Some new_image.
Proof.
  destruct (successful_run_image same_size decimal_text decimal_values
              (Some thumbnail) None false (fresh [black_png; white_png]))
    as (pixel_values & new_image & _ & Himage & _); [by vm_compute|].
  by exists new_image.
Defined.

Lemma known_tile_keeps_stored_colour_witness :
  ∃ i color,
    read_cache (recorded [black_md5; "7.0 7.0 7.0"] [black_png]) !! i
    = Some black_md5 ∧
    read_cache (recorded [black_md5; "7.0 7.0 7.0"] [black_png])
      !! (i + 1)%nat = Some color ∧
    cache_built
      (get_mosaic_palette same_size decimal_text decimal_values false
         (recorded [black_md5; "7.0 7.0 7.0"] [black_png]))
    = [black_md5; color].
Proof.
  destruct (known_tile_keeps_stored_colour same_size decimal_text
              decimal_values false
              (recorded [black_md5; "7.0 7.0 7.0"] [black_png])
              [] black_png [] black_md5)
    as (i & color & Hi & _ & Hcolor & Hbuilt & _).
  - reflexivity.
  - reflexivity.
  - reflexivity.
  - apply (bool_decide_unpack _). by vm_compute.
  - by vm_compute.
  - reflexivity.
  - exists i, color. split; [exact Hi|]. split; [exact Hcolor|].
    rewrite Hbuilt. reflexivity.
Defined.

Lemma first_run_creates_cache_witness :
  cache_file
    (world_after
       (get_mosaic_palette same_size decimal_text decimal_values false
          (fresh [small_png]))) = None.
Proof.
  destruct (first_run_creates_cache same_size decimal_text decimal_values
              false (fresh [small_png])) as [Hnone _]; [reflexivity|].
  apply Hnone. by vm_compute.
Defined.
